(** * MapSCII rendering pipeline: a shallow embedding and its properties

    The definitions below follow the TypeScript sources of the terminal map
    viewer: [BrailleBuffer] (pixel raster and frame serialisation),
    [Canvas] (polygon entry point), [LabelBuffer] (label collision index),
    [Styler] (compiled style filters), [Tile] (feature records),
    [TileSource] (decoded-tile cache) and [Mapscii] (canvas dimensions).

    Modelling conventions.
    - JavaScript numbers that the code uses as integers (pixel coordinates,
      palette indices, cell indices, tile coordinates) are [Z]; the 32-bit
      bit operators are written with their [ToInt32] wrap-around.
    - A Node [Buffer] is a [list Z] of bytes: a store outside the buffer is
      dropped, a store inside keeps the value modulo 256.
    - A sparse array or object used as a dictionary is a [gmap]; the names
      that every object inherits ([Styler.prototypeKeys]) are not keys of
      the model.
    - Third-party libraries (string-width, earcut, bresenham, x256) are
      section variables. *)

From Stdlib Require Import ZArith QArith Qround String Ascii List Lia Lqa.
From Stdlib Require Import DecimalString DecimalPos DecimalZ.
From stdpp Require Import gmap strings list fin_maps.

Local Open Scope Z_scope.

(** ** JavaScript primitives used by the sources *)

Module Js.

(** [ToInt32]: wrap to the signed 32-bit range. *)
Definition toInt32 (z : Z) : Z := (z + 2 ^ 31) mod 2 ^ 32 - 2 ^ 31.

(** [ToUint8]: what a [Buffer] keeps of a stored integer. *)
Definition toUint8 (z : Z) : Z := z mod 256.

(** [a >> n] *)
Definition shr (a n : Z) : Z := Z.shiftr (toInt32 a) (n mod 32).


(** [a & b], [a | b], [~a] *)
Definition and (a b : Z) : Z := Z.land (toInt32 a) (toInt32 b).
Definition or (a b : Z) : Z := Z.lor (toInt32 a) (toInt32 b).
Definition not (a : Z) : Z := Z.lnot (toInt32 a).

(** [String(n)] for an integer [n]. *)
Definition numToString (z : Z) : string := NilZero.string_of_int (Z.to_int z).

(** [xs.join(sep)] on strings. *)
Fixpoint join (sep : string) (xs : list string) : string :=
  match xs with
  | [] => EmptyString
  | [x] => x
  | x :: rest => (x ++ sep ++ join sep rest)%string
  end.

End Js.

(** ** The part of [config] the modelled classes read *)

Module Config.

Record t := mk {
  language : string;
  useBraille : bool;
  delimeter : string
}.

(** The values of the shipped configuration: ['en'], [true], ['\n\r']. *)
Definition default : t :=
  {| language := "en";
     useBraille := true;
     delimeter := String (ascii_of_nat 10) (String (ascii_of_nat 13) EmptyString) |}.

End Config.

(** ** BrailleBuffer *)

Module BrailleBuffer.

(** [termReset] *)
Definition CSI : string := String (ascii_of_nat 27) "[".
Definition termReset : string := (CSI ++ "39;49m")%string.

(** The object state.  [charBuffer] is a sparse JavaScript array. *)
Record t := mk {
  width : Z;
  height : Z;
  pixelBuffer : list Z;
  charBuffer : gmap Z string;
  foregroundBuffer : list Z;
  backgroundBuffer : list Z;
  globalBackground : option Z
}.

(** [this.brailleMap] *)
Definition brailleMap : list (list Z) :=
  [[0x1; 0x8]; [0x2; 0x10]; [0x4; 0x20]; [0x40; 0x80]].

(** [this.brailleMap[r][c]]; the callers index with [y & 3] and [x & 1]. *)
Definition brailleMask (r c : Z) : Z :=
  nth (Z.to_nat c) (nth (Z.to_nat r) brailleMap []) 0.

(** [buf[idx]] for a [Buffer]: [None] is [undefined]. *)
Definition bufGet (buf : list Z) (idx : Z) : option Z :=
  if 0 <=? idx then buf !! Z.to_nat idx else None.

(** [buf[idx] = v] for a [Buffer]. *)
Definition bufSet (buf : list Z) (idx v : Z) : list Z :=
  if 0 <=? idx then <[Z.to_nat idx := Js.toUint8 v]> buf else buf.

(** [Buffer.alloc(size)] followed by [fill(0)]. *)
Definition alloc (size : Z) : list Z := replicate (Z.to_nat size) 0.

(** [clear()] *)
Definition clear (b : t) : t :=
  {| width := width b; height := height b;
     pixelBuffer := replicate (length (pixelBuffer b)) 0;
     charBuffer := ∅;
     foregroundBuffer := replicate (length (foregroundBuffer b)) 0;
     backgroundBuffer := replicate (length (backgroundBuffer b)) 0;
     globalBackground := globalBackground b |}.

(** [new BrailleBuffer(width, height)] for dimensions with [8 | width*height]. *)
Definition new (w h : Z) : t :=
  let size := w * h / 8 in
  clear {| width := w; height := h;
           pixelBuffer := alloc size;
           charBuffer := ∅;
           foregroundBuffer := alloc size;
           backgroundBuffer := alloc size;
           globalBackground := None |}.

(** [setGlobalBackground(background)] *)
Definition setGlobalBackground (b : t) (background : Z) : t :=
  {| width := width b; height := height b;
     pixelBuffer := pixelBuffer b; charBuffer := charBuffer b;
     foregroundBuffer := foregroundBuffer b;
     backgroundBuffer := backgroundBuffer b;
     globalBackground := Some background |}.

(** [0 <= x && x < this.width && 0 <= y && y < this.height] *)
Definition inRange (b : t) (x y : Z) : bool :=
  (0 <=? x) && (x <? width b) && ((0 <=? y) && (y <? height b)).

(** [_project(x, y)] *)
Definition _project (b : t) (x y : Z) : Z :=
  Js.shr x 1 + Js.shr (width b) 1 * Js.shr y 2.

(** [setBackground(x, y, color)] *)
Definition setBackground (b : t) (x y color : Z) : t :=
  if inRange b x y then
    let idx := _project b x y in
    {| width := width b; height := height b;
       pixelBuffer := pixelBuffer b; charBuffer := charBuffer b;
       foregroundBuffer := foregroundBuffer b;
       backgroundBuffer := bufSet (backgroundBuffer b) idx color;
       globalBackground := globalBackground b |}
  else b.

(** [_locate(x, y, cb)] *)
Definition _locate (b : t) (x y : Z) (cb : Z -> Z -> t -> t) : t :=
  if negb (inRange b x y) then b
  else
    let idx := _project b x y in
    let mask := brailleMask (Js.and y 3) (Js.and x 1) in
    cb idx mask b.

(** The value of [buf[idx]] as an operand of a bit operator. *)
Definition bufOperand (buf : list Z) (idx : Z) : Z :=
  default 0 (bufGet buf idx).

(** [setPixel(x, y, color)] *)
Definition setPixel (b : t) (x y color : Z) : t :=
  _locate b x y (fun idx mask b =>
    {| width := width b; height := height b;
       pixelBuffer :=
         bufSet (pixelBuffer b) idx (Js.or (bufOperand (pixelBuffer b) idx) mask);
       charBuffer := charBuffer b;
       foregroundBuffer := bufSet (foregroundBuffer b) idx color;
       backgroundBuffer := backgroundBuffer b;
       globalBackground := globalBackground b |}).

(** [unsetPixel(x, y)] *)
Definition unsetPixel (b : t) (x y : Z) : t :=
  _locate b x y (fun idx mask b =>
    {| width := width b; height := height b;
       pixelBuffer :=
         bufSet (pixelBuffer b) idx
                (Js.and (bufOperand (pixelBuffer b) idx) (Js.not mask));
       charBuffer := charBuffer b;
       foregroundBuffer := foregroundBuffer b;
       backgroundBuffer := backgroundBuffer b;
       globalBackground := globalBackground b |}).

(** [setChar(char, x, y, color)] *)
Definition setChar (b : t) (char : string) (x y color : Z) : t :=
  if inRange b x y then
    let idx := _project b x y in
    {| width := width b; height := height b;
       pixelBuffer := pixelBuffer b;
       charBuffer := <[idx := char]> (charBuffer b);
       foregroundBuffer := bufSet (foregroundBuffer b) idx color;
       backgroundBuffer := backgroundBuffer b;
       globalBackground := globalBackground b |}
  else b.

(** The canonical braille bit of the pixel in column [col], row [row] of a
    cell, as the data model tabulates it. *)
Definition canonicalBit (col row : Z) : Z :=
  match col, row with
  | 0, 0 => 0x01 | 1, 0 => 0x08
  | 0, 1 => 0x02 | 1, 1 => 0x10
  | 0, 2 => 0x04 | 1, 2 => 0x20
  | 0, 3 => 0x40 | 1, 3 => 0x80
  | _, _ => 0
  end.

(** A byte array: every entry is in [0, 256). *)
Definition bytes (buf : list Z) : Prop := Forall (fun v => 0 <= v < 256) buf.

(** Well-formed buffers: the dimensions the data model prescribes (even
    width, height a multiple of four, both 32-bit) and three byte arrays of
    [width * height / 8] cells. *)
Record wf (b : t) : Prop := {
  wf_width : 0 <= width b < 2 ^ 31 /\ width b mod 2 = 0;
  wf_height : 0 <= height b < 2 ^ 31 /\ height b mod 4 = 0;
  wf_pixel : Z.of_nat (length (pixelBuffer b)) = width b * height b / 8
             /\ bytes (pixelBuffer b);
  wf_fg : Z.of_nat (length (foregroundBuffer b)) = width b * height b / 8
          /\ bytes (foregroundBuffer b);
  wf_bg : Z.of_nat (length (backgroundBuffer b)) = width b * height b / 8
          /\ bytes (backgroundBuffer b)
}.

(** *** Frame serialisation *)

(** [asciiMap], in the insertion order that [for ... in] enumerates. *)
Definition asciiMap : list (string * list Z) :=
  [ ("▀", [1 + 2 + 16 + 32]);
    ("▄", [4 + 8 + 64 + 128]);
    ("■", [2 + 4 + 32 + 64]);
    ("▌", [1 + 2 + 4 + 8]);
    ("▐", [16 + 32 + 64 + 128]);
    ("█", [255]) ].

(** Modelled from the spec: [utils.population], whose source file is not
    part of the sources at hand; the number of set bits of a byte. *)
Definition population (v : Z) : Z :=
  fold_right (fun k acc => (if Z.testbit v k then 1 else 0) + acc) 0
             (seqZ 0 8).

(** The [masks] array and the table [asciiToBraille] of [_mapBraille]. *)
Definition masks : list (Z * string) :=
  flat_map (fun '(char, bits) => map (fun mask => (mask, char)) bits) asciiMap.

Definition bestChar (braille : Z) : option (string * Z) :=
  fold_left (fun best '(mask, char) =>
               let covered := population (Js.and mask braille) in
               match best with
               | None => Some (char, covered)
               | Some (_, c) => if c <? covered then Some (char, covered) else best
               end)
            masks None.

Definition asciiToBraille : list string :=
  " "%string ::
  map (fun i =>
         let braille := Js.and i 7 + Z.shiftl (Js.and i 56) 1
                        + Js.shr (Js.and i 64) 3 + Js.and i 128 in
         match bestChar braille with
         | Some (char, _) => char
         | None => EmptyString
         end)
      (seqZ 1 255).

(** [v || null] for a byte read from a buffer. *)
Definition orNull (v : option Z) : option Z :=
  match v with
  | Some n => if n =? 0 then None else Some n
  | None => None
  end.

(** Truthiness of a [number | null]. *)
Definition truthy (v : option Z) : bool :=
  match v with
  | Some n => negb (n =? 0)
  | None => false
  end.

(** [_termColor(foreground, background)] *)
Definition _termColor (b : t) (foreground background : option Z) : string :=
  let background := Js.or (default 0 background) (default 0 (globalBackground b)) in
  if truthy foreground && negb (background =? 0) then
    (CSI ++ "38;5;" ++ Js.numToString (default 0 foreground)
         ++ ";48;5;" ++ Js.numToString background ++ "m")%string
  else if truthy foreground then
    (CSI ++ "49;38;5;" ++ Js.numToString (default 0 foreground) ++ "m")%string
  else if negb (background =? 0) then
    (CSI ++ "39;48;5;" ++ Js.numToString background ++ "m")%string
  else termReset.

(** What [frame] pushes on [output]. *)
Inductive item :=
| Delimiter                (* [config.delimeter] between rows *)
| Color (code : string)    (* an SGR sequence pushed for a cell *)
| Char (char : string)     (* an override character *)
| Braille (code : Z)       (* [String.fromCharCode(0x2800 + pixel)] *)
| Ascii (glyph : string)   (* [asciiToBraille[pixel]] *)
| Final.                   (* [termReset + config.delimeter] *)

(** The loop variables of [frame]. *)
Record loop := mkLoop {
  output : list item;
  currentColor : option string;
  skip : Z
}.

(** Number of iterations of [for (v = 0; v < n / d; v++)]. *)
Definition iterations (n d : Z) : Z := (n + d - 1) / d.

(** [y * this.width / 2 + x]: [None] when the quotient is not an integer,
    in which case every array read at the index gives [undefined]. *)
Definition frameIdx (b : t) (y x : Z) : option Z :=
  if (y * width b) mod 2 =? 0 then Some (y * width b / 2 + x) else None.

Definition readAt (buf : list Z) (idx : option Z) : option Z :=
  idx ≫= bufGet buf.

(** The color code computed for the cell at [idx]. *)
Definition cellColor (b : t) (idx : option Z) : string :=
  _termColor b (orNull (readAt (foregroundBuffer b) idx))
               (orNull (readAt (backgroundBuffer b) idx)).

(** [String.fromCharCode(0x2800 + this.pixelBuffer[idx])] as a code unit. *)
Definition brailleCode (p : option Z) : Z :=
  match p with
  | Some v => (0x2800 + v) mod 65536
  | None => 0
  end.

Section Frame.

Variable stringWidth : string -> Z.
Variable config : Config.t.

(** The body of the inner loop. *)
Definition cell (b : t) (y x : Z) (st : loop) : loop :=
  let idx := frameIdx b y x in
  let out1 :=
    if negb (bool_decide (idx = Some 0)) && (x =? 0)
    then output st ++ [Delimiter] else output st in
  let colorCode := cellColor b idx in
  let '(out2, cur) :=
    if bool_decide (currentColor st = Some colorCode)
    then (out1, currentColor st)
    else (out1 ++ [Color colorCode], Some colorCode) in
  match idx ≫= (fun i => charBuffer b !! i) with
  | Some (String c rest as char) =>
      let skip' := skip st + (stringWidth char - 1) in
      {| output := if 2 * (skip' + x) <? width b then out2 ++ [Char char] else out2;
         currentColor := cur; skip := skip' |}
  | _ =>
      if skip st =? 0 then
        {| output :=
             out2 ++ [if Config.useBraille config
                      then Braille (brailleCode (readAt (pixelBuffer b) idx))
                      else Ascii (default EmptyString
                                    (readAt (pixelBuffer b) idx
                                       ≫= (fun p => asciiToBraille !! Z.to_nat p)))];
           currentColor := cur; skip := 0 |}
      else {| output := out2; currentColor := cur; skip := skip st - 1 |}
  end.

(** One row: [skip = 0], then the inner loop over [x]. *)
Definition row (b : t) (st : loop) (y : Z) : loop :=
  fold_left (fun st x => cell b y x st)
            (seqZ 0 (iterations (width b) 2))
            {| output := output st; currentColor := currentColor st; skip := 0 |}.

(** The array [output] just before [join]. *)
Definition frameItems (b : t) : list item :=
  output (fold_left (row b) (seqZ 0 (iterations (height b) 4))
                    {| output := []; currentColor := None; skip := 0 |})
  ++ [Final].

(** The string an item stands for.  A braille code unit is written in
    UTF-8. *)
Definition utf8 (code : Z) : string :=
  if code <? 0x80 then String (ascii_of_N (Z.to_N code)) EmptyString
  else if code <? 0x800 then
    String (ascii_of_N (Z.to_N (0xC0 + code / 64)))
      (String (ascii_of_N (Z.to_N (0x80 + code mod 64))) EmptyString)
  else
    String (ascii_of_N (Z.to_N (0xE0 + code / 4096)))
      (String (ascii_of_N (Z.to_N (0x80 + code / 64 mod 64)))
         (String (ascii_of_N (Z.to_N (0x80 + code mod 64))) EmptyString)).

Definition itemString (i : item) : string :=
  match i with
  | Delimiter => Config.delimeter config
  | Color code => code
  | Char char => char
  | Braille code => utf8 code
  | Ascii glyph => glyph
  | Final => (termReset ++ Config.delimeter config)%string
  end.

(** [frame()] *)
Definition frame (b : t) : string :=
  Js.join EmptyString (map itemString (frameItems b)).

End Frame.

(** The SGR sequences of an [output] array in emission order: all of them,
    and those pushed for cells. *)
Definition sgrOf (i : item) : option string :=
  match i with
  | Color code => Some code
  | Final => Some termReset
  | _ => None
  end.

Definition cellSgrOf (i : item) : option string :=
  match i with
  | Color code => Some code
  | _ => None
  end.

Definition emittedSgr (out : list item) : list string := omap sgrOf out.
Definition cellSgr (out : list item) : list string := omap cellSgrOf out.

(** No two neighbours of the list are equal. *)
Fixpoint noRepeat (l : list string) : Prop :=
  match l with
  | a :: (b :: _) as rest => a <> b /\ noRepeat rest
  | _ => True
  end.

(** The loop invariant of [frame]: the SGR sequences pushed so far never
    repeat back to back, and [currentColor] is the last of them. *)
Definition frameInv (st : loop) : Prop :=
  noRepeat (cellSgr (output st))
  /\ last (cellSgr (output st)) = currentColor st.

(** The loops push no [Final] item: the terminating reset comes after. *)
Definition cellItem (i : item) : Prop := i <> Final.

(** The cell indices that [frame] visits, in the order of its two loops. *)
Definition frameCells (b : t) : list (option Z) :=
  flat_map (fun y => map (fun x => frameIdx b y x) (seqZ 0 (iterations (width b) 2)))
           (seqZ 0 (iterations (height b) 4)).

(** A run of color codes with every code dropped that equals the one in
    effect before it; [cur] is the code in effect at the start. *)
Fixpoint compress (cur : option string) (codes : list string) : list string :=
  match codes with
  | [] => []
  | code :: rest =>
      if bool_decide (cur = Some code) then compress cur rest
      else code :: compress (Some code) rest
  end.

(** The items of an [output] array that are not SGR sequences: delimiters,
    characters and glyphs, in emission order. *)
Definition layout (out : list item) : list item :=
  omap (fun i => match i with Color _ | Final => None | _ => Some i end) out.

(** What the cell [i] shows in braille mode when no wide character hides
    it: its override character if it has a non-empty one, else its glyph. *)
Definition cellShown (b : t) (i : Z) : item :=
  match charBuffer b !! i with
  | Some (String c rest as char) => Char char
  | _ => Braille (brailleCode (bufGet (pixelBuffer b) i))
  end.

(** The braille code units of an [output] array, in emission order. *)
Definition glyphs (out : list item) : list Z :=
  omap (fun i => match i with Braille code => Some code | _ => None end) out.

End BrailleBuffer.

(** ** Canvas: the polygon entry point *)

Module Canvas.

Record Point := mkPoint { px : Z; py : Z }.

Record t := mk {
  width : Z;
  height : Z;
  buffer : BrailleBuffer.t
}.

(** [new Canvas(width, height)] *)
Definition new (w h : Z) : t :=
  {| width := w; height := h; buffer := BrailleBuffer.new w h |}.

Definition withBuffer (c : t) (b : BrailleBuffer.t) : t :=
  {| width := width c; height := height c; buffer := b |}.

(** [arr[i]] on a plain array, [None] for [undefined]; the index itself may
    be [undefined]. *)
Definition at_ (arr : list Z) (i : option Z) : option Z :=
  i ≫= (fun i => if 0 <=? i then arr !! Z.to_nat i else None).

(** [_polygonExtract(vertices, pointId)] *)
Definition _polygonExtract (vertices : list Z) (pointId : option Z)
  : option Z * option Z :=
  (at_ vertices ((fun p => p * 2) <$> pointId),
   at_ vertices ((fun p => p * 2 + 1) <$> pointId)).

(** The ring loop of [polygon]: the flattened [vertices] and the [holes]
    start indices, or [None] where the loop leaves with [return false]. *)
Fixpoint collectRings (rings : list (list Point)) (vertices holes : list Z)
  : option (list Z * list Z) :=
  match rings with
  | [] => Some (vertices, holes)
  | ring :: rest =>
      let pushed := vertices ++ flat_map (fun p => [px p; py p]) ring in
      if negb (Z.of_nat (length vertices) =? 0) then
        if Z.of_nat (length ring) <? 3 then collectRings rest vertices holes
        else collectRings rest pushed (holes ++ [Z.of_nat (length vertices) / 2])
      else
        if Z.of_nat (length ring) <? 3 then None
        else collectRings rest pushed holes
  end.

(** The comparator handed to [sort]: by [y], then by [x]. *)
Definition pointLe (a b : Point) : bool :=
  if py a =? py b then px a <=? px b else py a <? py b.

Fixpoint insertSorted (p : Point) (l : list Point) : list Point :=
  match l with
  | [] => [p]
  | q :: rest => if pointLe p q then p :: l else q :: insertSorted p rest
  end.

Definition sortPoints (l : list Point) : list Point :=
  fold_right insertSorted [] l.

Section Polygon.

(** [earcut(vertices, holes)]: the triangle indices, [None] when it throws. *)
Variable earcut : list Z -> list Z -> option (list Z).

(** [bresenham(x0, y0, x1, y1)] without callback: the points of the line. *)
Variable bresenham : option Z -> option Z -> option Z -> option Z -> list Point.

Definition _bresenham (pointA pointB : option Z * option Z) : list Point :=
  bresenham (fst pointA) (snd pointA) (fst pointB) (snd pointB).

(** The scan loop of [_filledTriangle] over the sorted points. *)
Fixpoint fillSpans (c : t) (b : BrailleBuffer.t) (points : list Point) (color : Z)
  : BrailleBuffer.t :=
  match points with
  | [] => b
  | point :: rest =>
      match rest with
      | [] => BrailleBuffer.setPixel b (px point) (py point) color
      | next :: _ =>
          let b' :=
            if py point =? py next then
              let left := Z.max 0 (px point) in
              let right := Z.min (width c - 1) (px next) in
              if (0 <=? left) && (right <=? width c) then
                fold_left (fun b x => BrailleBuffer.setPixel b x (py point) color)
                          (seqZ left (right - left + 1)) b
              else b
            else BrailleBuffer.setPixel b (px point) (py point) color in
          fillSpans c b' rest color
      end
  end.

(** [_filledTriangle(pointA, pointB, pointC, color)] *)
Definition _filledTriangle (c : t) (pointA pointB pointC : option Z * option Z)
           (color : Z) : t :=
  let a := _bresenham pointB pointC in
  let b := _bresenham pointA pointC in
  let c' := _bresenham pointA pointB in
  let points :=
    sortPoints
      (filter (fun point => (0 <=? py point) && (py point <? height c) = true)
              (a ++ b ++ c')) in
  withBuffer c (fillSpans c (buffer c) points color).

(** The triangle loop of [polygon]: three indices per step; an index past
    the end of [triangles] reads [undefined]. *)
Fixpoint drawTriangles (c : t) (vertices triangles : list Z) (color : Z) : t :=
  match triangles with
  | [] => c
  | i0 :: rest0 =>
      let pa := _polygonExtract vertices (Some i0) in
      let pb := _polygonExtract vertices (head rest0) in
      let pc := _polygonExtract vertices (head (tail rest0)) in
      let c' := _filledTriangle c pa pb pc color in
      match rest0 with
      | _ :: _ :: rest => drawTriangles c' vertices rest color
      | _ => c'
      end
  end.

(** [polygon(rings, color)]: the returned boolean and the canvas after. *)
Definition polygon (c : t) (rings : list (list Point)) (color : Z) : bool * t :=
  match collectRings rings [] [] with
  | None => (false, c)
  | Some (vertices, holes) =>
      match earcut vertices holes with
      | None => (false, c)
      | Some triangles => (true, drawTriangles c vertices triangles color)
      end
  end.

End Polygon.

End Canvas.

(** ** LabelBuffer *)

Module LabelBuffer.

Local Open Scope Q_scope.

Section Labels.

(** The type of the features attached to labels. *)
Variable Feature : Type.

(** [stringWidth(text)] of the string-width package. *)
Variable stringWidth : string -> Z.

Record Item := mkItem {
  minX : Q;
  minY : Q;
  maxX : Q;
  maxY : Q;
  feature : option Feature
}.

(** The RBush index, modelled by the items inserted so far; [collides]
    answers whether the box intersects one of them (borders included), as
    the package documents it. *)
Definition intersects (a b : Item) : bool :=
  Qle_bool (minX b) (maxX a) && Qle_bool (minY b) (maxY a)
  && Qle_bool (minX a) (maxX b) && Qle_bool (minY a) (maxY b).

Definition collides (tree : list Item) (bbox : Item) : bool :=
  existsb (fun item => intersects bbox item) tree.

Record t := mk {
  tree : list Item;
  margin : Q
}.

(** [new LabelBuffer()] *)
Definition new : t := {| tree := []; margin := 5 |}.

(** [clear()] *)
Definition clear (l : t) : t := {| tree := []; margin := margin l |}.

(** [project(x, y)] *)
Definition project (x y : Q) : Z * Z := (Qfloor (x / 2), Qfloor (y / 4)).

(** [_calculateArea(text, x, y, margin = 0)] *)
Definition _calculateArea (text : string) (x y : Z) (margin : option Q) : Item :=
  let margin := default 0 margin in
  {| minX := inject_Z x - margin;
     minY := inject_Z y - margin / 2;
     maxX := inject_Z x + margin + inject_Z (stringWidth text);
     maxY := inject_Z y + margin / 2;
     feature := None |}.

(** [_hasSpace(text, x, y)] *)
Definition _hasSpace (l : t) (text : string) (x y : Z) : bool :=
  negb (collides (tree l) (_calculateArea text x y None)).

Definition withFeature (i : Item) (f : Feature) : Item :=
  {| minX := minX i; minY := minY i; maxX := maxX i; maxY := maxY i;
     feature := Some f |}.

(** [margin || this.margin] *)
Definition marginOr (l : t) (m : option Q) : Q :=
  match m with
  | Some m => if Qeq_bool m 0 then margin l else m
  | None => margin l
  end.

(** [writeIfPossible(text, x, y, feature, margin)].  The first component
    tells whether the label was accepted: the source returns [false] on a
    collision and otherwise the (truthy) result of [tree.insert]. *)
Definition writeIfPossible (l : t) (text : string) (x y : Q) (f : Feature)
           (m : option Q) : bool * t :=
  let margin' := marginOr l m in
  let point := project x y in
  if _hasSpace l text (fst point) (snd point) then
    let data := _calculateArea text (fst point) (snd point) (Some margin') in
    (true, {| tree := tree l ++ [withFeature data f]; margin := margin l |})
  else (false, l).

(** The rectangle [[X-m, X+m+width(text)] x [Y-m/2, Y+m/2]] that the
    specification of [writeIfPossible] tests and inserts. *)
Definition specRectangle (text : string) (x y m : Q) : Item :=
  _calculateArea text (fst (project x y)) (snd (project x y)) (Some m).

(** [writeIfPossible] as the specification words it: test the rectangle
    with its margin, refuse on a collision, otherwise insert it. *)
Definition writeIfPossible_spec (l : t) (text : string) (x y : Q) (f : Feature)
           (m : Q) : bool * t :=
  if collides (tree l) (specRectangle text x y m) then (false, l)
  else (true, {| tree := tree l ++ [withFeature (specRectangle text x y m) f];
                 margin := margin l |}).

End Labels.

Arguments mkItem {Feature} _ _ _ _ _.
Arguments minX {Feature} _.
Arguments minY {Feature} _.
Arguments maxX {Feature} _.
Arguments maxY {Feature} _.
Arguments feature {Feature} _.
Arguments intersects {Feature} _ _.
Arguments collides {Feature} _ _.
Arguments tree {Feature} _.
Arguments margin {Feature} _.
Arguments new {Feature}.
Arguments clear {Feature} _.
Arguments _calculateArea {Feature} _ _ _ _ _.
Arguments _hasSpace {Feature} _ _ _ _ _.
Arguments withFeature {Feature} _ _.
Arguments marginOr {Feature} _ _.
Arguments writeIfPossible {Feature} _ _ _ _ _ _ _.
Arguments specRectangle {Feature} _ _ _ _ _.
Arguments writeIfPossible_spec {Feature} _ _ _ _ _ _ _.

End LabelBuffer.

(** ** Styler *)

Module Styler.

(** Primitive JavaScript values: feature properties and filter operands. *)
Inductive value :=
| VUndefined
| VNull
| VBool (b : bool)
| VNum (n : Z)
| VStr (s : string).

#[global] Instance value_eq_dec : EqDecision value.
Proof. solve_decision. Defined.

(** Truthiness. *)
Definition truthy (v : value) : bool :=
  match v with
  | VUndefined | VNull => false
  | VBool b => b
  | VNum n => negb (n =? 0)
  | VStr s => negb (bool_decide (s = EmptyString))
  end.

(** [a || b] *)
Definition orElse (a b : value) : value := if truthy a then a else b.

(** [a === b] on primitives. *)
Definition strictEq (a b : value) : bool := bool_decide (a = b).

Record Feature := mkFeature {
  type : Z;
  properties : gmap string value
}.

(** [feature.properties[key]] *)
Definition prop (feature : Feature) (key : string) : value :=
  default VUndefined (properties feature !! key).

(** A layer filter, by the head of its array; [Other] stands for an absent
    filter and for every head the [switch] does not list. *)
#[warnings="-register-all"]
Inductive filter :=
| All (subs : list filter)
| Any (subs : list filter)
| NoneOf (subs : list filter)
| Eq (key : string) (v : value)
| Ne (key : string) (v : value)
| In (key : string) (vs : list value)
| NotIn (key : string) (vs : list value)
| Has (key : string)
| NotHas (key : string)
| Gt (key : string) (v : value)
| Ge (key : string) (v : value)
| Lt (key : string) (v : value)
| Le (key : string) (v : value)
| Other.

Section Compile.

(** The relational comparison [a < b] of the language: [Some true],
    [Some false], or [None] when an operand converts to [NaN]. *)
Variable lessThan : value -> value -> option bool.

(** [!!arr.find(p)] and [!arr.find(p)] for an array of functions, which
    are all truthy. *)
Definition found {A} (p : A -> bool) (arr : list A) : bool :=
  match find p arr with
  | Some _ => true
  | None => false
  end.

(** [_compileFilter(filter)] *)
Fixpoint _compileFilter (f : filter) : Feature -> bool :=
  match f with
  | All subs =>
      let filters := map _compileFilter subs in
      fun feature => found (fun appliesTo => negb (appliesTo feature)) filters
  | Any subs =>
      let filters := map _compileFilter subs in
      fun feature => found (fun appliesTo => appliesTo feature) filters
  | NoneOf subs =>
      let filters := map _compileFilter subs in
      fun feature => negb (found (fun appliesTo => negb (appliesTo feature)) filters)
  | Eq key v => fun feature => strictEq (prop feature key) v
  | Ne key v => fun feature => negb (strictEq (prop feature key) v)
  | In key vs =>
      fun feature =>
        truthy (default VUndefined
                  (find (fun value => strictEq (prop feature key) value) vs))
  | NotIn key vs =>
      fun feature =>
        negb (truthy (default VUndefined
                        (find (fun value => strictEq (prop feature key) value) vs)))
  | Has key => fun feature => truthy (prop feature key)
  | NotHas key => fun feature => negb (truthy (prop feature key))
  | Gt key v => fun feature => bool_decide (lessThan v (prop feature key) = Some true)
  | Ge key v => fun feature => bool_decide (lessThan (prop feature key) v = Some false)
  | Lt key v => fun feature => bool_decide (lessThan (prop feature key) v = Some true)
  | Le key v => fun feature => bool_decide (lessThan v (prop feature key) = Some false)
  | Other => fun _ => true
  end.

(** A paint value: a string, or a zoom-stop record with its [stops]. *)
Inductive paintValue :=
| PStr (s : string)
| PStops (stops : list (Z * string)).

Record StyleLayer := mkLayer {
  id : string;
  layerType : option string;
  layerFilter : filter;
  paint : option (gmap string paintValue)
}.

(** [layer.appliesTo], as the constructor sets it. *)
Definition appliesTo (layer : StyleLayer) : Feature -> bool :=
  _compileFilter (layerFilter layer).

Record t := mk {
  styleByLayer : gmap string (list StyleLayer)
}.

(** [getStyleFor(layer, feature)]; [None] is [false]. *)
Definition getStyleFor (s : t) (layer : string) (feature : Feature)
  : option StyleLayer :=
  match styleByLayer s !! layer with
  | None => None
  | Some styles => find (fun style => appliesTo style feature) styles
  end.

End Compile.

(** The property names an object literal inherits from [Object.prototype]:
    reading one of them from a dictionary object finds a function, not
    [undefined]. *)
Definition prototypeKeys : list string :=
  [ "constructor"; "__proto__"; "hasOwnProperty"; "isPrototypeOf";
    "propertyIsEnumerable"; "toLocaleString"; "toString"; "valueOf";
    "__defineGetter__"; "__defineSetter__"; "__lookupGetter__";
    "__lookupSetter__" ]%string.

End Styler.

(** ** Tile: building the feature records *)

Module Tile.

Import Styler.

(** A decoded vector-tile feature: geometry type, properties, and the
    result of [loadGeometry()]. *)
Record RawFeature := mkRaw {
  rawType : Z;
  rawProperties : gmap string value;
  rawGeometry : list (list Canvas.Point)
}.

(** [points] of a record: all rings of a fill, or one line of the others. *)
Inductive points :=
| Rings (rings : list (list Canvas.Point))
| Line (line : list Canvas.Point).

(** [TileFeature].  A bound is [None] while it still holds the initial
    infinity of [_addBoundaries]. *)
Record TileFeature := mkNode {
  layer : string;
  style : StyleLayer;
  label : value;
  sort : value;
  nodePoints : points;
  color : Z;
  minX : option Z;
  maxX : option Z;
  minY : option Z;
  maxY : option Z
}.

(** [[undefined, 'Point', 'LineString', 'Polygon'][feature.type]] *)
Definition typeName (ty : Z) : value :=
  match ty with
  | 1 => VStr "Point"
  | 2 => VStr "LineString"
  | 3 => VStr "Polygon"
  | _ => VUndefined
  end.

(** [feature.properties.$type = ...]: assigning [undefined] still creates
    the key, and reading it back gives [undefined] either way. *)
Definition withType (raw : RawFeature) : Feature :=
  {| type := rawType raw;
     properties := <["$type"%string := typeName (rawType raw)]> (rawProperties raw) |}.

(** The bounds loop of [_addBoundaries]. *)
Definition lower (cur : option Z) (v : Z) : option Z :=
  match cur with
  | Some m => if v <? m then Some v else cur
  | None => Some v
  end.

Definition upper (cur : option Z) (v : Z) : option Z :=
  match cur with
  | Some m => if m <? v then Some v else cur
  | None => Some v
  end.

(** [_addBoundaries(deep, data)]; [None] when [data.points[0]] is
    [undefined] and the loop over it throws.  The callers pass [deep] for
    the records that hold rings and for no others. *)
Definition _addBoundaries (deep : bool) (data : TileFeature) : option TileFeature :=
  pts ← match nodePoints data with
        | Rings rings => if deep then head rings else None
        | Line line => if deep then None else Some line
        end;
  Some {| layer := layer data; style := style data; label := label data;
          sort := sort data; nodePoints := nodePoints data; color := color data;
          minX := fold_left (fun m p => lower m (Canvas.px p)) pts None;
          maxX := fold_left (fun m p => upper m (Canvas.px p)) pts None;
          minY := fold_left (fun m p => lower m (Canvas.py p)) pts None;
          maxY := fold_left (fun m p => upper m (Canvas.py p)) pts None |}.

(** [a || b] on paint values, [None] being [undefined]. *)
Definition paintOr (a b : option paintValue) : option paintValue :=
  match a with
  | Some (PStr s) => if bool_decide (s = EmptyString) then b else a
  | Some (PStops _) => a
  | None => b
  end.

Section Load.

Variable lessThan : value -> value -> option bool.
Variable config : Config.t.

(** [x256(utils.hex2rgb(color))], [None] when it throws; the argument is
    [None] for [undefined].  The source memoises the result per color in
    [colorCache], which does not change the value. *)
Variable colorCode : option string -> option Z.

(** The sort key: [feature.properties.localrank || feature.properties.scalerank]. *)
Definition sortKey (feature : Feature) : value :=
  orElse (prop feature "localrank") (prop feature "scalerank").

(** The label of a symbol feature. *)
Definition labelOf (st : StyleLayer) (feature : Feature) : value :=
  if bool_decide (layerType st = Some "symbol"%string) then
    orElse (orElse (orElse (prop feature ("name_" ++ Config.language config))
                           (prop feature "name_en"))
                   (prop feature "name"))
           (prop feature "house_num")
  else VUndefined.

(** The body of the feature loop of [_loadLayers] for one feature of the
    layer [name]: the records it pushes on [nodes], [Some []] where it
    [continue]s, [None] where it throws. *)
Definition featureNodes (styler : option Styler.t) (name : string) (raw : RawFeature)
  : option (list TileFeature) :=
  let feature := withType raw in
  match styler with
  | None => None  (* [style] stays undefined and [style.paint] throws *)
  | Some styler =>
      match getStyleFor lessThan styler name feature with
      | None => Some []
      | Some st =>
          paint ← paint st;
          let color := paintOr (paintOr (paint !! "line-color"%string)
                                        (paint !! "fill-color"%string))
                               (paint !! "text-color"%string) in
          color ← match color with
                  | Some (PStops stops) => Some <$> (snd <$> head stops)
                  | Some (PStr s) => Some (Some s)
                  | None => Some None
                  end;
          code ← colorCode color;
          let geometries := rawGeometry raw in
          let sort := sortKey feature in
          let label := labelOf st feature in
          let node pts :=
            {| layer := name; style := st; label := label; sort := sort;
               nodePoints := pts; color := code;
               minX := Some 0; maxX := Some 0; minY := Some 0; maxY := Some 0 |} in
          if bool_decide (layerType st = Some "fill"%string) then
            n ← _addBoundaries true (node (Rings geometries)); Some [n]
          else
            mapM (fun pts => _addBoundaries false (node (Line pts))) geometries
      end
  end.

(** The feature loop: the [nodes] loaded into the layer's tree. *)
Definition layerNodes (styler : option Styler.t) (name : string)
           (features : list RawFeature) : option (list TileFeature) :=
  mjoin <$> mapM (featureNodes styler name) features.

End Load.

(** The integer sort key as the specification words it:
    [localrank ?? scalerank ?? 0]. *)
Definition sortKey_spec (feature : Feature) : value :=
  match properties feature !! "localrank"%string with
  | Some v => v
  | None => match properties feature !! "scalerank"%string with
            | Some v => v
            | None => VNum 0
            end
  end.

(** [buf.indexOf(value)] for two buffers: the first offset at which [value]
    occurs in [buf], or -1. *)
Fixpoint startsWith (value buf : list Z) : bool :=
  match value, buf with
  | [], _ => true
  | v :: value', b :: buf' => (v =? b) && startsWith value' buf'
  | _ :: _, [] => false
  end.

Fixpoint indexOfFrom (buf value : list Z) (offset : Z) : Z :=
  if startsWith value buf then offset
  else match buf with
       | [] => -1
       | _ :: rest => indexOfFrom rest value (offset + 1)
       end.

Definition indexOf (buf value : list Z) : Z := indexOfFrom buf value 0.

(** [_isGzipped(buffer)] *)
Definition _isGzipped (buffer : list Z) : bool :=
  indexOf (take 2 buffer) [0x1f; 0x8b] =? 0.

(** The inner loop of [_reduceGeometry] over the points of one line, with
    [last] the point pushed last ([None] for [undefined]), for a non-zero
    [factor]. *)
Fixpoint reducePoints (factor : Z) (last : option Canvas.Point)
         (line : list Canvas.Point) : list Canvas.Point :=
  match line with
  | [] => []
  | point :: rest =>
      let p := Canvas.mkPoint (Canvas.px point / factor) (Canvas.py point / factor) in
      match last with
      | Some l =>
          if (Canvas.px l =? Canvas.px p) && (Canvas.py l =? Canvas.py p)
          then reducePoints factor last rest
          else p :: reducePoints factor (Some p) rest
      | None => p :: reducePoints factor (Some p) rest
      end
  end.

(** [_reduceGeometry(feature, factor)], on the feature's geometry. *)
Definition _reduceGeometry (geometries : list (list Canvas.Point)) (factor : Z)
  : list (list Canvas.Point) :=
  map (reducePoints factor None) geometries.

End Tile.

(** ** TileSource: the cache of decoded tiles *)

Module TileSource.

Inductive mode := MBTiles | VectorTile | HTTP.

Section Cache.

(** The decoded tiles. *)
Variable Tile : Type.

Record t := mk {
  cache : gmap string Tile;
  cacheSize : Z;
  cached : list string;
  sourceMode : option mode
}.

(** The state [init] leaves for a source of the given mode. *)
Definition init (m : option mode) : t :=
  {| cache := ∅; cacheSize := 16; cached := []; sourceMode := m |}.

(** [[z, x, y].join('-')] *)
Definition tileName (z x y : Z) : string :=
  Js.join "-" [Js.numToString z; Js.numToString x; Js.numToString y].

(** The keys that [for (const tile in removed)] enumerates: the indices of
    the array, as strings. *)
Definition indexKeys {A} (removed : list A) : list string :=
  map (fun i => Js.numToString (Z.of_nat i)) (seq 0 (length removed)).

(** The eviction block of [getTile]. *)
Definition evict (s : t) : t :=
  if cacheSize s <? Z.of_nat (length (cached s)) then
    let overflow := Z.abs (cacheSize s - Z.of_nat (length (cached s))) in
    let removed := take (Z.to_nat overflow) (cached s) in
    {| cache := fold_left (fun c tile => delete tile c) (indexKeys removed) (cache s);
       cacheSize := cacheSize s;
       cached := drop (Z.to_nat overflow) (cached s);
       sourceMode := sourceMode s |}
  else s.

(** [_createTile(z, x, y, buffer)], with [tile] the decoded buffer. *)
Definition _createTile (s : t) (z x y : Z) (tile : Tile) : t :=
  let name := tileName z x y in
  {| cache := <[name := tile]> (cache s);
     cacheSize := cacheSize s;
     cached := cached s ++ [name];
     sourceMode := sourceMode s |}.

(** What a call of [getTile] does up to the point where it starts the
    fetch. *)
Inductive outcome :=
| Throws                 (* no TileSource defined *)
| Hit (tile : Tile)      (* resolved from the cache *)
| Fetch (s : t)          (* a fetch was started; the state after eviction *)
| NoPromise (s : t).     (* a mode the [switch] does not serve *)

Definition getTileStart (s : t) (z x y : Z) : outcome :=
  match sourceMode s with
  | None => Throws
  | Some m =>
      match cache s !! tileName z x y with
      | Some tile => Hit tile
      | None =>
          let s' := evict s in
          match m with
          | MBTiles | HTTP => Fetch s'
          | VectorTile => NoPromise s'
          end
      end
  end.

(** [getTile(z, x, y)] run until its promise resolves, with [decode] the
    tile that the fetched bytes decode to: the state afterwards. *)
Definition getTile (decode : Z -> Z -> Z -> Tile) (s : t) (z x y : Z) : t :=
  match getTileStart s z x y with
  | Fetch s' => _createTile s' z x y (decode z x y)
  | NoPromise s' => s'
  | Hit _ | Throws => s
  end.

(** A sequence of calls, each resolved before the next. *)
Definition getTiles (decode : Z -> Z -> Z -> Tile) (s : t)
           (calls : list (Z * Z * Z)) : t :=
  fold_left (fun s '(z, x, y) => getTile decode s z x y) calls s.

End Cache.

Arguments cache {Tile} _.
Arguments cacheSize {Tile} _.
Arguments cached {Tile} _.
Arguments sourceMode {Tile} _.
Arguments init {Tile} _.
Arguments evict {Tile} _.
Arguments _createTile {Tile} _ _ _ _ _.
Arguments getTileStart {Tile} _ _ _ _.
Arguments getTile {Tile} _ _ _ _ _.
Arguments getTiles {Tile} _ _ _.

(** Whether a string holds the separator of tile names. *)
Fixpoint hasDash (s : string) : bool :=
  match s with
  | EmptyString => false
  | String c rest => Ascii.eqb c "-" || hasDash rest
  end.

End TileSource.


(** ** Mapscii: the size of the canvas *)

Module Mapscii.





End Mapscii.

(** ** Sample data *)

(** A style with one line layer for the source layer [road], and two road
    features: one without rank properties, one with [localrank] 0. *)
Definition roadStyler : Styler.t :=
  {| Styler.styleByLayer :=
       {[ "road"%string :=
            [ {| Styler.id := "road_major";
                 Styler.layerType := Some "line"%string;
                 Styler.layerFilter :=
                   Styler.Eq "$type" (Styler.VStr "LineString");
                 Styler.paint :=
                   Some {[ "line-color"%string := Styler.PStr "#ffffff" ]} |} ] ]} |}.

Definition roadPlain : Tile.RawFeature :=
  {| Tile.rawType := 2;
     Tile.rawProperties := {[ "class"%string := Styler.VStr "motorway" ]};
     Tile.rawGeometry := [[Canvas.mkPoint 0 0; Canvas.mkPoint 10 4]] |}.

Definition roadRanked : Tile.RawFeature :=
  {| Tile.rawType := 2;
     Tile.rawProperties :=
       {[ "localrank"%string := Styler.VNum 0; "scalerank"%string := Styler.VNum 5 ]};
     Tile.rawGeometry := [[Canvas.mkPoint 0 0; Canvas.mkPoint 10 4]] |}.

Definition roadTop : Tile.RawFeature :=
  {| Tile.rawType := 2;
     Tile.rawProperties :=
       {[ "localrank"%string := Styler.VNum 3; "scalerank"%string := Styler.VNum 5 ]};
     Tile.rawGeometry := [[Canvas.mkPoint 0 0; Canvas.mkPoint 10 4]] |}.

(** A comparison that orders numbers and answers [None] (an operand is
    [NaN]) elsewhere; enough to run the ordering filters on numbers. *)
Definition numLess (a b : Styler.value) : option bool :=
  match a, b with
  | Styler.VNum x, Styler.VNum y => Some (x <? y)
  | _, _ => None
  end.

(** * Properties *)

(** ** 32-bit operators on small operands *)

Lemma toInt32_small z : - 2 ^ 31 <= z < 2 ^ 31 -> Js.toInt32 z = z.
Proof.
  intros Hz. unfold Js.toInt32.
  rewrite Z.mod_small; lia.
Qed.

Lemma shr_small a n :
  0 <= a < 2 ^ 31 -> 0 <= n < 32 -> Js.shr a n = a / 2 ^ n.
Proof.
  intros Ha Hn. unfold Js.shr.
  rewrite toInt32_small by lia.
  rewrite (Z.mod_small n 32) by lia.
  apply Z.shiftr_div_pow2; lia.
Qed.

Lemma and_ones a n :
  0 <= a < 2 ^ 31 -> 0 <= n < 31 -> Js.and a (Z.ones n) = a mod 2 ^ n.
Proof.
  intros Ha Hn. unfold Js.and.
  assert (0 <= Z.ones n < 2 ^ 31).
  { rewrite Z.ones_equiv.
    assert (2 ^ n <= 2 ^ 30) by (apply Z.pow_le_mono_r; lia).
    assert (0 < 2 ^ n) by (apply Z.pow_pos_nonneg; lia).
    lia. }
  rewrite !toInt32_small by lia.
  apply Z.land_ones; lia.
Qed.

Lemma lor_byte a b : 0 <= a < 256 -> 0 <= b < 256 -> 0 <= Z.lor a b < 256.
Proof.
  intros Ha Hb.
  assert (Hnn : 0 <= Z.lor a b) by (apply Z.lor_nonneg; lia).
  split; [exact Hnn|].
  destruct (Z.eq_dec (Z.lor a b) 0) as [->|Hne]; [lia|].
  change 256 with (2 ^ 8).
  apply Z.log2_lt_pow2; [lia|].
  rewrite Z.log2_lor by lia.
  destruct (Z.eq_dec a 0) as [->|Ha0]; destruct (Z.eq_dec b 0) as [->|Hb0];
    cbn [Z.log2]; try (apply Z.max_lub_lt); try lia;
    try (apply Z.log2_lt_pow2; lia).
Qed.

Lemma or_byte a b : 0 <= a < 256 -> 0 <= b < 256 -> Js.or a b = Z.lor a b.
Proof.
  intros Ha Hb. unfold Js.or. rewrite !toInt32_small by lia. reflexivity.
Qed.

Lemma land_byte_l a c : 0 <= a < 256 -> 0 <= Z.land a c < 256.
Proof.
  intros Ha.
  assert (E : Z.land a c = Z.land a c mod 2 ^ 8).
  { rewrite <- Z.land_ones by lia.
    rewrite <- Z.land_assoc, (Z.land_comm c), Z.land_assoc.
    rewrite (Z.land_ones a) by lia.
    rewrite (Z.mod_small a) by (change (2 ^ 8) with 256; lia).
    reflexivity. }
  rewrite E. change 256 with (2 ^ 8). apply Z.mod_pos_bound. lia.
Qed.

Lemma land_lnot_byte a b :
  0 <= a < 256 -> 0 <= b < 256 -> 0 <= Z.land a (Z.lnot b) < 256.
Proof.
  intros Ha Hb. apply land_byte_l, Ha.
Qed.

Lemma and_not_byte a b :
  0 <= a < 256 -> 0 <= b < 256 -> Js.and a (Js.not b) = Z.land a (Z.lnot b).
Proof.
  intros Ha Hb. unfold Js.and, Js.not.
  rewrite (toInt32_small b) by lia.
  rewrite (toInt32_small a) by lia.
  rewrite toInt32_small; [reflexivity|].
  unfold Z.lnot. lia.
Qed.

Lemma lor_land_lnot a b : Z.land (Z.lor a b) (Z.lnot b) = Z.land a (Z.lnot b).
Proof.
  apply Z.bits_inj'. intros n Hn.
  rewrite !Z.land_spec, Z.lor_spec, Z.lnot_spec by lia.
  destruct (Z.testbit a n), (Z.testbit b n); reflexivity.
Qed.

Lemma land_lnot_clear a b : Z.land a b = 0 -> Z.land a (Z.lnot b) = a.
Proof.
  intros H. apply Z.bits_inj'. intros n Hn.
  assert (Hb : Z.testbit (Z.land a b) n = false) by (rewrite H; apply Z.bits_0).
  rewrite Z.land_spec in Hb.
  rewrite Z.land_spec, Z.lnot_spec by lia.
  destruct (Z.testbit a n), (Z.testbit b n); simpl in *; congruence.
Qed.

(** ** BrailleBuffer: pixels *)

Section Pixels.

Import BrailleBuffer.

Lemma inRange_true b x y :
  inRange b x y = true <-> 0 <= x < width b /\ 0 <= y < height b.
Proof. unfold inRange. rewrite !andb_true_iff. lia. Qed.

Lemma inRange_false b x y :
  ~ (0 <= x < width b /\ 0 <= y < height b) -> inRange b x y = false.
Proof.
  intros H. destruct (inRange b x y) eqn:E; [|reflexivity].
  apply inRange_true in E. contradiction.
Qed.

Lemma bufGet_bufSet_eq buf i v :
  0 <= i < Z.of_nat (length buf) ->
  bufGet (bufSet buf i v) i = Some (Js.toUint8 v).
Proof.
  intros Hi. unfold bufGet, bufSet.
  destruct (0 <=? i) eqn:E; [|lia].
  apply list_lookup_insert_eq. lia.
Qed.

Lemma bufGet_bufSet_ne buf i j v :
  j <> i -> bufGet (bufSet buf i v) j = bufGet buf j.
Proof.
  intros Hne. unfold bufGet, bufSet.
  destruct (0 <=? j) eqn:Ej; [|reflexivity].
  destruct (0 <=? i) eqn:Ei; [|reflexivity].
  apply list_lookup_insert_ne. lia.
Qed.

Lemma bufSet_length buf i v : length (bufSet buf i v) = length buf.
Proof. unfold bufSet. destruct (0 <=? i); [apply length_insert|reflexivity]. Qed.

Lemma bufGet_byte buf i p : bytes buf -> bufGet buf i = Some p -> 0 <= p < 256.
Proof.
  unfold bytes, bufGet. intros Hb Hp.
  destruct (0 <=? i); [|discriminate].
  rewrite Forall_lookup in Hb. exact (Hb _ _ Hp).
Qed.

Lemma bufGet_in_range buf i :
  0 <= i < Z.of_nat (length buf) -> exists p, bufGet buf i = Some p.
Proof.
  intros Hi. unfold bufGet. destruct (0 <=? i) eqn:E; [|lia].
  destruct (lookup_lt_is_Some_2 buf (Z.to_nat i)) as [p Hp]; [lia|].
  exists p. exact Hp.
Qed.

(** The cell index of an in-range pixel lies inside the three buffers. *)
Lemma project_in_range b x y :
  wf b -> 0 <= x < width b -> 0 <= y < height b ->
  _project b x y = x / 2 + width b / 2 * (y / 4)
  /\ 0 <= _project b x y < width b * height b / 8.
Proof.
  intros [[Hw Hw2] [Hh Hh4] _ _ _] Hx Hy.
  unfold _project.
  rewrite !shr_small by lia.
  change (2 ^ 1) with 2. change (2 ^ 2) with 4.
  split; [reflexivity|].
  pose proof (Z.div_mod (width b) 2 ltac:(lia)) as Ew.
  pose proof (Z.div_mod (height b) 4 ltac:(lia)) as Eh.
  set (w := width b / 2) in *. set (h := height b / 4) in *.
  assert (Hx2 : 0 <= x / 2 < w).
  { split; [apply Z.div_pos; lia|apply Z.div_lt_upper_bound; lia]. }
  assert (Hy4 : 0 <= y / 4 < h).
  { split; [apply Z.div_pos; lia|apply Z.div_lt_upper_bound; lia]. }
  assert (Esz : width b * height b / 8 = w * h).
  { replace (width b * height b) with (w * h * 8) by lia.
    apply Z.div_mul. lia. }
  rewrite Esz. nia.
Qed.

(** The mask that [_locate] reads from [brailleMap] is the canonical bit. *)
Lemma locate_mask b x y :
  wf b -> 0 <= x < width b -> 0 <= y < height b ->
  brailleMask (Js.and y 3) (Js.and x 1) = canonicalBit (x mod 2) (y mod 4).
Proof.
  intros [[Hw _] [Hh _] _ _ _] Hx Hy.
  change 3 with (Z.ones 2). change 1 with (Z.ones 1).
  rewrite !and_ones by lia.
  change (2 ^ 2) with 4. change (2 ^ 1) with 2.
  pose proof (Z.mod_pos_bound x 2 ltac:(lia)).
  pose proof (Z.mod_pos_bound y 4 ltac:(lia)).
  assert (Cx : x mod 2 = 0 \/ x mod 2 = 1) by lia.
  assert (Cy : y mod 4 = 0 \/ y mod 4 = 1 \/ y mod 4 = 2 \/ y mod 4 = 3) by lia.
  destruct Cx as [-> | ->]; destruct Cy as [-> | [-> | [-> | ->]]]; reflexivity.
Qed.

Lemma canonicalBit_single x y :
  exists k, 0 <= k < 8 /\ canonicalBit (x mod 2) (y mod 4) = 2 ^ k.
Proof.
  pose proof (Z.mod_pos_bound x 2 ltac:(lia)).
  pose proof (Z.mod_pos_bound y 4 ltac:(lia)).
  assert (Cx : x mod 2 = 0 \/ x mod 2 = 1) by lia.
  assert (Cy : y mod 4 = 0 \/ y mod 4 = 1 \/ y mod 4 = 2 \/ y mod 4 = 3) by lia.
  destruct Cx as [-> | ->]; destruct Cy as [-> | [-> | [-> | ->]]]; cbn.
  - exists 0; split; [lia|reflexivity].
  - exists 1; split; [lia|reflexivity].
  - exists 2; split; [lia|reflexivity].
  - exists 6; split; [lia|reflexivity].
  - exists 3; split; [lia|reflexivity].
  - exists 4; split; [lia|reflexivity].
  - exists 5; split; [lia|reflexivity].
  - exists 7; split; [lia|reflexivity].
Qed.

Lemma canonicalBit_byte x y : 0 <= canonicalBit (x mod 2) (y mod 4) < 256.
Proof.
  destruct (canonicalBit_single x y) as (k & Hk & ->).
  assert (Ck : k = 0 \/ k = 1 \/ k = 2 \/ k = 3 \/ k = 4 \/ k = 5 \/ k = 6 \/ k = 7)
    by lia.
  destruct Ck as [-> | [-> | [-> | [-> | [-> | [-> | [-> | ->]]]]]]]; cbn; lia.
Qed.

(** [setPixel] and [unsetPixel] on an in-range pixel, unfolded. *)
Lemma setPixel_in_range b x y c :
  wf b -> 0 <= x < width b -> 0 <= y < height b ->
  setPixel b x y c =
    {| width := width b; height := height b;
       pixelBuffer :=
         bufSet (pixelBuffer b) (_project b x y)
           (Js.or (bufOperand (pixelBuffer b) (_project b x y))
                  (canonicalBit (x mod 2) (y mod 4)));
       charBuffer := charBuffer b;
       foregroundBuffer := bufSet (foregroundBuffer b) (_project b x y) c;
       backgroundBuffer := backgroundBuffer b;
       globalBackground := globalBackground b |}.
Proof.
  intros Hwf Hx Hy. unfold setPixel, _locate.
  rewrite (proj2 (inRange_true b x y)) by lia. cbn [negb].
  rewrite (locate_mask b x y) by assumption. reflexivity.
Qed.

Lemma unsetPixel_in_range b x y :
  wf b -> 0 <= x < width b -> 0 <= y < height b ->
  unsetPixel b x y =
    {| width := width b; height := height b;
       pixelBuffer :=
         bufSet (pixelBuffer b) (_project b x y)
           (Js.and (bufOperand (pixelBuffer b) (_project b x y))
                   (Js.not (canonicalBit (x mod 2) (y mod 4))));
       charBuffer := charBuffer b;
       foregroundBuffer := foregroundBuffer b;
       backgroundBuffer := backgroundBuffer b;
       globalBackground := globalBackground b |}.
Proof.
  intros Hwf Hx Hy. unfold unsetPixel, _locate.
  rewrite (proj2 (inRange_true b x y)) by lia. cbn [negb].
  rewrite (locate_mask b x y) by assumption. reflexivity.
Qed.

Lemma setPixel_wf b x y c : wf b -> wf (setPixel b x y c).
Proof.
  intros Hwf.
  destruct (inRange b x y) eqn:E.
  - apply inRange_true in E. destruct E as [Hx Hy].
    rewrite setPixel_in_range by assumption.
    destruct Hwf as [Hw Hh [Lp Bp] [Lf Bf] Hbg].
    constructor; cbn; try assumption.
    + split; [rewrite bufSet_length; exact Lp|].
      unfold bufSet. destruct (0 <=? _); [|exact Bp].
      apply Forall_insert; [exact Bp|].
      unfold Js.toUint8. apply Z.mod_pos_bound. lia.
    + split; [rewrite bufSet_length; exact Lf|].
      unfold bufSet. destruct (0 <=? _); [|exact Bf].
      apply Forall_insert; [exact Bf|].
      unfold Js.toUint8. apply Z.mod_pos_bound. lia.
  - unfold setPixel, _locate. rewrite E. exact Hwf.
Qed.

Lemma new_wf w h :
  0 <= w < 2 ^ 31 -> w mod 2 = 0 -> 0 <= h < 2 ^ 31 -> h mod 4 = 0 -> wf (new w h).
Proof.
  intros Hw Hw2 Hh Hh4.
  assert (0 <= w * h / 8) by (apply Z.div_pos; nia).
  constructor; cbn; try (split; assumption);
    (split; [unfold alloc; rewrite !length_replicate; lia
            |apply Forall_replicate; lia]).
Qed.

End Pixels.

(** C5.  [setPixel(x, y, c)] with a palette index [c]: outside
    [[0, W) x [0, H)] the buffer is unchanged; inside, with
    [i = (x>>1) + (W>>1)*(y>>2)], exactly the one canonical braille bit of
    [(x mod 2, y mod 4)] is ORed into [pixel[i]], [fg[i]] becomes [c], and every
    other cell of [pixel] and [fg], the whole of [bg] and of [char] and the
    global background stay as they were. *)
Theorem setPixel_spec (b : BrailleBuffer.t) (x y c : Z) :
  let b' := BrailleBuffer.setPixel b x y c in
  let i := BrailleBuffer._project b x y in
  let bit := BrailleBuffer.canonicalBit (x mod 2) (y mod 4) in
  (~ (0 <= x < BrailleBuffer.width b /\ 0 <= y < BrailleBuffer.height b) -> b' = b)
  /\ (BrailleBuffer.wf b -> 0 <= c < 256 ->
      0 <= x < BrailleBuffer.width b -> 0 <= y < BrailleBuffer.height b ->
      (exists k, 0 <= k < 8 /\ bit = 2 ^ k)
      /\ i = x / 2 + BrailleBuffer.width b / 2 * (y / 4)
      /\ (exists p,
            BrailleBuffer.bufGet (BrailleBuffer.pixelBuffer b) i = Some p
            /\ BrailleBuffer.bufGet (BrailleBuffer.pixelBuffer b') i
               = Some (Z.lor p bit))
      /\ BrailleBuffer.bufGet (BrailleBuffer.foregroundBuffer b') i = Some c
      /\ (forall j, j <> i ->
            BrailleBuffer.bufGet (BrailleBuffer.pixelBuffer b') j
            = BrailleBuffer.bufGet (BrailleBuffer.pixelBuffer b) j
            /\ BrailleBuffer.bufGet (BrailleBuffer.foregroundBuffer b') j
               = BrailleBuffer.bufGet (BrailleBuffer.foregroundBuffer b) j)
      /\ BrailleBuffer.backgroundBuffer b' = BrailleBuffer.backgroundBuffer b
      /\ BrailleBuffer.charBuffer b' = BrailleBuffer.charBuffer b
      /\ BrailleBuffer.globalBackground b' = BrailleBuffer.globalBackground b
      /\ BrailleBuffer.width b' = BrailleBuffer.width b
      /\ BrailleBuffer.height b' = BrailleBuffer.height b).
Proof.
  intros b' i bit. split.
  - intros Hout. subst b'. unfold BrailleBuffer.setPixel, BrailleBuffer._locate.
    rewrite inRange_false by assumption. reflexivity.
  - intros Hwf Hc Hx Hy.
    destruct (project_in_range b x y Hwf Hx Hy) as [Ei Hi]. fold i in Ei, Hi.
    pose proof Hwf as [_ _ [Lp Bp] [Lf Bf] _].
    destruct (bufGet_in_range (BrailleBuffer.pixelBuffer b) i)
      as [p Hp]; [lia|].
    pose proof (bufGet_byte _ _ _ Bp Hp) as Hpb.
    pose proof (canonicalBit_byte x y) as Hbit. fold bit in Hbit.
    subst b'. rewrite setPixel_in_range by assumption. cbn. fold i bit.
    split; [apply canonicalBit_single|].
    split; [exact Ei|].
    split.
    { exists p. split; [exact Hp|].
      rewrite bufGet_bufSet_eq by lia.
      unfold BrailleBuffer.bufOperand. rewrite Hp. cbn.
      rewrite or_byte by assumption.
      unfold Js.toUint8. rewrite Z.mod_small; [reflexivity|].
      apply lor_byte; assumption. }
    split.
    { rewrite bufGet_bufSet_eq by lia.
      unfold Js.toUint8. rewrite Z.mod_small by lia. reflexivity. }
    split.
    { intros j Hj. split; apply bufGet_bufSet_ne; exact Hj. }
    repeat split.
Qed.

Lemma setPixel_spec_witness :
  let b := BrailleBuffer.new 4 4 in
  BrailleBuffer.wf b /\ 0 <= 196 < 256 /\ 0 <= 3 < 4 /\ 0 <= 2 < 4
  /\ ~ (0 <= 7 < 4 /\ 0 <= 0 < 4)
  /\ BrailleBuffer.setPixel b 7 0 196 = b
  /\ BrailleBuffer.bufGet
       (BrailleBuffer.foregroundBuffer (BrailleBuffer.setPixel b 3 2 196)) 1
     = Some 196.
Proof.
  intros b.
  assert (Hwf : BrailleBuffer.wf b).
  { apply new_wf; [lia | reflexivity | lia | reflexivity]. }
  assert (Hout : ~ (0 <= 7 < 4 /\ 0 <= 0 < 4)) by lia.
  split; [exact Hwf|]. split; [lia|]. split; [lia|]. split; [lia|].
  split; [exact Hout|].
  split.
  - exact (proj1 (setPixel_spec b 7 0 196) Hout).
  - destruct (proj2 (setPixel_spec b 3 2 196) Hwf) as (_ & _ & _ & Hfg & _);
      [lia | cbn; lia | cbn; lia | exact Hfg].
Defined.

(** C8, as the code has it.  On a well-formed buffer and an in-range
    pixel, [setPixel(x, y, c)] followed by [unsetPixel(x, y)] leaves in
    [pixel[i]] the prior value with that pixel's bit cleared; this is the
    prior value itself exactly when the pixel was not set before. *)
Theorem setPixel_unsetPixel (b : BrailleBuffer.t) (x y c p : Z) :
  let i := BrailleBuffer._project b x y in
  let bit := BrailleBuffer.canonicalBit (x mod 2) (y mod 4) in
  let b' := BrailleBuffer.unsetPixel (BrailleBuffer.setPixel b x y c) x y in
  BrailleBuffer.wf b ->
  0 <= x < BrailleBuffer.width b -> 0 <= y < BrailleBuffer.height b ->
  BrailleBuffer.bufGet (BrailleBuffer.pixelBuffer b) i = Some p ->
  BrailleBuffer.bufGet (BrailleBuffer.pixelBuffer b') i
  = Some (Z.land p (Z.lnot bit))
  /\ (Z.land p bit = 0 ->
      BrailleBuffer.bufGet (BrailleBuffer.pixelBuffer b') i = Some p)
  /\ (Z.land p bit <> 0 ->
      BrailleBuffer.bufGet (BrailleBuffer.pixelBuffer b') i = Some (p - bit)).
Proof.
  intros i bit b' Hwf Hx Hy Hp.
  destruct (project_in_range b x y Hwf Hx Hy) as [_ Hi]. fold i in Hi.
  pose proof Hwf as [_ _ [Lp Bp] _ _].
  pose proof (bufGet_byte _ _ _ Bp Hp) as Hpb.
  pose proof (canonicalBit_byte x y) as Hbit. fold bit in Hbit.
  pose proof (setPixel_wf b x y c Hwf) as Hwf'.
  assert (Ew : BrailleBuffer.width (BrailleBuffer.setPixel b x y c)
               = BrailleBuffer.width b /\
               BrailleBuffer.height (BrailleBuffer.setPixel b x y c)
               = BrailleBuffer.height b).
  { rewrite setPixel_in_range by assumption. split; reflexivity. }
  destruct Ew as [Ew Eh].
  assert (Ei : BrailleBuffer._project (BrailleBuffer.setPixel b x y c) x y = i).
  { unfold BrailleBuffer._project. rewrite Ew. reflexivity. }
  assert (Hset : BrailleBuffer.bufGet
                   (BrailleBuffer.pixelBuffer (BrailleBuffer.setPixel b x y c)) i
                 = Some (Z.lor p bit)).
  { rewrite setPixel_in_range by assumption. cbn. fold i bit.
    rewrite bufGet_bufSet_eq by lia.
    unfold BrailleBuffer.bufOperand. rewrite Hp. cbn.
    rewrite or_byte by assumption.
    unfold Js.toUint8. rewrite Z.mod_small; [reflexivity|].
    apply lor_byte; assumption. }
  assert (Hres : BrailleBuffer.bufGet (BrailleBuffer.pixelBuffer b') i
                 = Some (Z.land p (Z.lnot bit))).
  { subst b'. rewrite unsetPixel_in_range by (rewrite ?Ew, ?Eh; assumption).
    cbn. rewrite Ei. fold bit.
    pose proof Hwf' as [_ _ [Lp' _] _ _].
    rewrite bufGet_bufSet_eq by (rewrite Lp', Ew, Eh; lia).
    unfold BrailleBuffer.bufOperand. rewrite Hset. cbn.
    pose proof (lor_byte p bit Hpb Hbit) as Hor.
    rewrite and_not_byte by assumption.
    rewrite lor_land_lnot.
    unfold Js.toUint8. rewrite Z.mod_small; [reflexivity|].
    apply land_lnot_byte; assumption. }
  split; [exact Hres|]. split.
  - intros Hclear. rewrite Hres, land_lnot_clear by assumption. reflexivity.
  - intros Hsetbit. rewrite Hres. f_equal.
    destruct (canonicalBit_single x y) as (k & Hk & Ek). fold bit in Ek.
    rewrite <- Z.ldiff_land.
    assert (Hland : Z.land p bit = bit).
    { rewrite Ek in *. apply Z.bits_inj'. intros n Hn.
      rewrite Z.land_spec, Z.pow2_bits_eqb by lia.
      destruct (Z.eqb_spec k n) as [<-|Hkn]; [|apply andb_false_r].
      rewrite andb_true_r.
      destruct (Z.testbit p k) eqn:Et; [reflexivity|].
      exfalso. apply Hsetbit. apply Z.bits_inj'. intros m Hm.
      rewrite Z.land_spec, Z.pow2_bits_eqb, Z.bits_0 by lia.
      destruct (Z.eqb_spec k m) as [<-|_]; [rewrite Et; reflexivity|].
      apply andb_false_r. }
    symmetry. apply Z.sub_nocarry_ldiff.
    apply Z.bits_inj'. intros n Hn.
    rewrite Z.ldiff_spec, Z.bits_0, <- Hland, Z.land_spec.
    destruct (Z.testbit p n), (Z.testbit bit n); reflexivity.
Qed.

Lemma setPixel_unsetPixel_witness :
  let b := BrailleBuffer.new 2 4 in
  BrailleBuffer.wf b /\ 0 <= 1 < 2 /\ 0 <= 3 < 4
  /\ BrailleBuffer.bufGet (BrailleBuffer.pixelBuffer b) 0 = Some 0
  /\ BrailleBuffer.bufGet
       (BrailleBuffer.pixelBuffer
          (BrailleBuffer.unsetPixel (BrailleBuffer.setPixel b 1 3 9) 1 3)) 0
     = Some 0.
Proof.
  intros b.
  assert (Hwf : BrailleBuffer.wf b).
  { apply new_wf; [lia | reflexivity | lia | reflexivity]. }
  split; [exact Hwf|]. split; [lia|]. split; [lia|]. split; [reflexivity|].
  destruct (setPixel_unsetPixel b 1 3 9 0 Hwf) as (_ & Hclear & _);
    [cbn; lia | cbn; lia | reflexivity | exact (Hclear eq_refl)].
Defined.

(** C8 as stated fails: with the pixel already set, setting and unsetting it
    leaves the bit cleared, not the prior value. *)
Lemma setPixel_unsetPixel_not_prior :
  ~ (forall (b : BrailleBuffer.t) (x y c : Z),
       BrailleBuffer.wf b ->
       0 <= x < BrailleBuffer.width b -> 0 <= y < BrailleBuffer.height b ->
       BrailleBuffer.bufGet
         (BrailleBuffer.pixelBuffer
            (BrailleBuffer.unsetPixel (BrailleBuffer.setPixel b x y c) x y))
         (BrailleBuffer._project b x y)
       = BrailleBuffer.bufGet (BrailleBuffer.pixelBuffer b)
                              (BrailleBuffer._project b x y)).
Proof.
  intros H.
  assert (Hwf : BrailleBuffer.wf (BrailleBuffer.setPixel (BrailleBuffer.new 2 4) 0 0 1)).
  { apply setPixel_wf, new_wf; [lia | reflexivity | lia | reflexivity]. }
  specialize (H _ 0 0 1 Hwf ltac:(cbn; lia) ltac:(cbn; lia)).
  vm_compute in H. discriminate H.
Qed.

(** ** BrailleBuffer: frame serialisation *)

Section FrameFacts.

Import BrailleBuffer.

Variable stringWidth : string -> Z.
Variable config : Config.t.

Lemma cellSgr_snoc out i :
  cellSgr (out ++ [i]) = cellSgr out ++ option_list (cellSgrOf i).
Proof.
  unfold cellSgr. rewrite omap_app. cbn.
  destruct (cellSgrOf i); reflexivity.
Qed.

Lemma noRepeat_snoc l c : noRepeat l -> last l <> Some c -> noRepeat (l ++ [c]).
Proof.
  induction l as [|a [|a' l'] IH]; intros Hl Hlast.
  - exact I.
  - cbn in *. split; [congruence | exact I].
  - destruct Hl as [Hne Hl]. split; [exact Hne|].
    apply IH; [exact Hl|]. exact Hlast.
Qed.

(** What one cell adds to the SGR sequences: its color code, unless that
    is the current one. *)
Lemma cell_sgr b y x st :
  let code := cellColor b (frameIdx b y x) in
  cellSgr (output (cell stringWidth config b y x st))
  = cellSgr (output st)
    ++ (if bool_decide (currentColor st = Some code) then [] else [code])
  /\ currentColor (cell stringWidth config b y x st) = Some code.
Proof.
  intros code. unfold cell. fold code.
  set (out1 := if negb (bool_decide (frameIdx b y x = Some 0)) && (x =? 0)
               then output st ++ [Delimiter] else output st).
  assert (E1 : cellSgr out1 = cellSgr (output st)).
  { subst out1. destruct (_ && _); [|reflexivity].
    rewrite cellSgr_snoc. cbn. apply app_nil_r. }
  destruct (bool_decide (currentColor st = Some code)) eqn:Ecur.
  - apply bool_decide_eq_true in Ecur.
    rewrite app_nil_r.
    repeat case_match; cbn [output currentColor];
      rewrite ?cellSgr_snoc; cbn [cellSgrOf option_list];
      rewrite ?app_nil_r; split; solve [exact E1 | exact Ecur].
  - repeat case_match; cbn [output currentColor];
      rewrite ?cellSgr_snoc; cbn [cellSgrOf option_list];
      rewrite ?app_nil_r, ?cellSgr_snoc, ?E1; cbn [cellSgrOf option_list];
      split; reflexivity.
Qed.

Lemma cell_inv b y x st :
  frameInv st -> frameInv (cell stringWidth config b y x st).
Proof.
  intros [Hnr Hlast].
  destruct (cell_sgr b y x st) as [Eout Ecur].
  unfold frameInv. rewrite Eout, Ecur.
  destruct (bool_decide (currentColor st = Some _)) eqn:E.
  - apply bool_decide_eq_true in E. rewrite app_nil_r.
    split; [exact Hnr | congruence].
  - apply bool_decide_eq_false in E.
    split; [apply noRepeat_snoc; [exact Hnr | congruence] | apply last_snoc].
Qed.

Lemma cells_inv b y xs st :
  frameInv st ->
  frameInv (fold_left (fun st x => cell stringWidth config b y x st) xs st).
Proof.
  revert st. induction xs as [|x xs IH]; intros st Hst; [exact Hst|].
  cbn. apply IH, cell_inv, Hst.
Qed.

Lemma row_inv b st y : frameInv st -> frameInv (row stringWidth config b st y).
Proof. intros Hst. unfold row. apply cells_inv. exact Hst. Qed.

Lemma rows_inv b ys st :
  frameInv st -> frameInv (fold_left (row stringWidth config b) ys st).
Proof.
  revert st. induction ys as [|y ys IH]; intros st Hst; [exact Hst|].
  cbn. apply IH, row_inv, Hst.
Qed.

Lemma frameItems_cellSgr b :
  noRepeat (cellSgr (frameItems stringWidth config b)).
Proof.
  unfold frameItems. rewrite cellSgr_snoc. cbn. rewrite app_nil_r.
  apply rows_inv. split; [exact I | reflexivity].
Qed.

Lemma cell_items b y x st :
  Forall cellItem (output st) ->
  Forall cellItem (output (cell stringWidth config b y x st)).
Proof.
  intros Hst. unfold cell.
  repeat case_match; simplify_eq; cbn [output];
    repeat (apply Forall_app; split);
    repeat (apply Forall_cons; split);
    solve [exact Hst | constructor | unfold cellItem; discriminate].
Qed.

Lemma rows_items b ys st :
  Forall cellItem (output st) ->
  Forall cellItem (output (fold_left (row stringWidth config b) ys st)).
Proof.
  revert st. induction ys as [|y ys IH]; intros st Hst; [exact Hst|].
  cbn. apply IH. unfold row.
  generalize (seqZ 0 (iterations (width b) 2)).
  assert (H0 : Forall cellItem
                 (output {| output := output st; currentColor := currentColor st;
                            skip := 0 |})) by exact Hst.
  revert H0. generalize {| output := output st; currentColor := currentColor st;
                           skip := 0 |}.
  intros st0 H0 xs. revert st0 H0.
  induction xs as [|x xs IHx]; intros st0 H0; [exact H0|].
  cbn. apply IHx, cell_items, H0.
Qed.

Lemma cellItems_sgr out :
  Forall cellItem out -> emittedSgr out = cellSgr out.
Proof.
  unfold emittedSgr, cellSgr.
  induction 1 as [|i l Hi _ IH]; [reflexivity|].
  destruct i; cbn; rewrite ?IH; try reflexivity.
  exfalso. apply Hi. reflexivity.
Qed.

Lemma frameItems_emittedSgr b :
  emittedSgr (frameItems stringWidth config b)
  = cellSgr (frameItems stringWidth config b) ++ [termReset].
Proof.
  unfold frameItems. rewrite cellSgr_snoc. cbn. rewrite app_nil_r.
  unfold emittedSgr at 1. rewrite omap_app. cbn. f_equal.
  apply cellItems_sgr, rows_items. constructor.
Qed.

End FrameFacts.

(** C6, as the code has it.  In the array that [frame()] joins, the SGR
    sequences pushed for cells never repeat back to back: a cell pushes its
    sequence only when it differs from the last one pushed.  The sequences
    of the whole frame are those followed by the terminating reset, which is
    pushed unconditionally. *)
Theorem frame_sgr_compressed (stringWidth : string -> Z) (config : Config.t)
        (b : BrailleBuffer.t) :
  let out := BrailleBuffer.frameItems stringWidth config b in
  BrailleBuffer.noRepeat (BrailleBuffer.cellSgr out)
  /\ BrailleBuffer.emittedSgr out
     = BrailleBuffer.cellSgr out ++ [BrailleBuffer.termReset]
  /\ (forall y x st,
        let code := BrailleBuffer.cellColor b (BrailleBuffer.frameIdx b y x) in
        let st' := BrailleBuffer.cell stringWidth config b y x st in
        BrailleBuffer.cellSgr (BrailleBuffer.output st')
        = BrailleBuffer.cellSgr (BrailleBuffer.output st)
          ++ (if bool_decide (BrailleBuffer.currentColor st = Some code)
              then [] else [code])).
Proof.
  intros out. split; [apply frameItems_cellSgr|].
  split; [apply frameItems_emittedSgr|].
  intros y x st. apply cell_sgr.
Qed.

(** C6 as stated fails: a cleared buffer's frame holds the reset of its
    first cell directly followed by the terminating reset. *)
Lemma frame_sgr_repeats :
  ~ (forall (stringWidth : string -> Z) (config : Config.t) (b : BrailleBuffer.t),
       BrailleBuffer.noRepeat
         (BrailleBuffer.emittedSgr (BrailleBuffer.frameItems stringWidth config b))).
Proof.
  intros H.
  specialize (H (fun _ => 1) Config.default (BrailleBuffer.new 2 4)).
  vm_compute in H. destruct H as [H _]. apply H. reflexivity.
Qed.

(** ** BrailleBuffer: the color code of a cell *)

Section ColorFacts.

Import BrailleBuffer.

Lemma or_zero_l g : 0 <= g < 2 ^ 31 -> Js.or 0 g = g.
Proof.
  intros Hg. unfold Js.or. rewrite (toInt32_small g) by lia. reflexivity.
Qed.

(** On a well-formed buffer, the index [frame] computes for the cell of an
    in-range pixel is the index [setPixel] writes. *)
Lemma frameIdx_project b x y :
  wf b -> 0 <= x < width b -> 0 <= y < height b ->
  frameIdx b (y / 4) (x / 2) = Some (_project b x y).
Proof.
  intros Hwf Hx Hy.
  destruct (project_in_range b x y Hwf Hx Hy) as [-> _].
  destruct Hwf as [[Hw Hw2] _ _ _ _].
  unfold frameIdx.
  pose proof (Z.div_mod (width b) 2 ltac:(lia)) as Ew.
  assert (E : y / 4 * width b = y / 4 * (width b / 2) * 2) by lia.
  rewrite E, Z.mod_mul by lia. cbn.
  rewrite Z.div_mul by lia. f_equal. lia.
Qed.

(** The background that [_termColor] uses: the cell background ORed bit by
    bit with the global one. *)
Lemma termColor_both b fg bg g :
  globalBackground b = Some g ->
  0 < fg < 256 -> 0 < bg < 256 -> 0 <= g < 256 ->
  _termColor b (Some fg) (Some bg)
  = (CSI ++ "38;5;" ++ Js.numToString fg
         ++ ";48;5;" ++ Js.numToString (Z.lor bg g) ++ "m")%string.
Proof.
  intros Hg Hfg Hbg Hgb. unfold _termColor. rewrite Hg.
  change (default 0 (Some bg)) with bg. change (default 0 (Some g)) with g.
  change (default 0 (Some fg)) with fg. cbn [truthy].
  rewrite or_byte by lia.
  assert (Hne : Z.lor bg g <> 0).
  { intros E. apply Z.lor_eq_0_iff in E. lia. }
  destruct (Z.eqb_spec fg 0) as [?|_]; [lia|].
  destruct (Z.eqb_spec (Z.lor bg g) 0) as [?|_]; [contradiction|].
  reflexivity.
Qed.

End ColorFacts.

(** C2, evaluated on the code.  A cell with foreground 5 and background 1
    under the global background 2 is emitted with background index 3, the
    bitwise OR of the two, where the cell's own background 1 is set. *)
Theorem frame_background_or_fused :
  let b := BrailleBuffer.setGlobalBackground
             (BrailleBuffer.setBackground
                (BrailleBuffer.setPixel (BrailleBuffer.new 2 4) 0 0 5) 0 0 1) 2 in
  BrailleBuffer.bufGet (BrailleBuffer.backgroundBuffer b) 0 = Some 1
  /\ BrailleBuffer.globalBackground b = Some 2
  /\ BrailleBuffer.cellColor b (Some 0)
     = (BrailleBuffer.CSI ++ "38;5;5;48;5;3m")%string
  /\ BrailleBuffer.frameItems (fun _ => 1) Config.default b
     = [BrailleBuffer.Color (BrailleBuffer.CSI ++ "38;5;5;48;5;3m")%string;
        BrailleBuffer.Braille 0x2801; BrailleBuffer.Final].
Proof. vm_compute. repeat split. Qed.

(** ** Canvas.polygon *)

Section PolygonFacts.

Import Canvas.

Variable earcut : list Z -> list Z -> option (list Z).
Variable bresenham : option Z -> option Z -> option Z -> option Z -> list Point.

(** Once vertices have been pushed, rings of fewer than three points are
    passed over. *)
Lemma collectRings_skip rest vertices holes :
  vertices <> [] ->
  collectRings rest vertices holes
  = collectRings (filter (fun r => 3 <= Z.of_nat (length r)) rest) vertices holes.
Proof.
  revert vertices holes.
  induction rest as [|ring rest IH]; intros vertices holes Hv; [reflexivity|].
  assert (Hlen : (Z.of_nat (length vertices) =? 0) = false).
  { apply Z.eqb_neq. destruct vertices; [contradiction | cbn; lia]. }
  rewrite filter_cons. cbn [collectRings]. rewrite Hlen. cbn [negb].
  destruct (Z.ltb_spec (Z.of_nat (length ring)) 3) as [Hlt|Hge].
  - rewrite decide_False by lia. apply IH, Hv.
  - rewrite decide_True by lia. cbn [collectRings]. rewrite Hlen. cbn [negb].
    destruct (Z.ltb_spec (Z.of_nat (length ring)) 3) as [?|_]; [lia|].
    apply IH. destruct vertices; [contradiction | discriminate].
Qed.

(** With vertices pushed, the ring loop runs to its end. *)
Lemma collectRings_total rest vertices holes :
  vertices <> [] -> is_Some (collectRings rest vertices holes).
Proof.
  revert vertices holes.
  induction rest as [|ring rest IH]; intros vertices holes Hv; [eexists; reflexivity|].
  cbn [collectRings].
  assert (Hlen : (Z.of_nat (length vertices) =? 0) = false).
  { apply Z.eqb_neq. destruct vertices; [contradiction | cbn; lia]. }
  rewrite Hlen. cbn [negb].
  destruct (Z.of_nat (length ring) <? 3); apply IH; try exact Hv.
  destruct vertices; [contradiction | discriminate].
Qed.

Lemma outer_pushed (outer : list Point) :
  3 <= Z.of_nat (length outer) -> flat_map (fun p => [px p; py p]) outer <> [].
Proof. destruct outer; cbn; [lia | discriminate]. Qed.

End PolygonFacts.

(** C7.  [polygon] on a non-empty list of rings: an outer ring of fewer
    than three vertices makes it return [false] with the canvas untouched;
    with a proper outer ring, inner rings of fewer than three vertices are
    passed over, the ring loop does not fail and the call behaves as on the
    list without them; and when the triangulation throws, it returns
    [false] with the canvas untouched. *)
Theorem polygon_failure_modes
        (earcut : list Z -> list Z -> option (list Z))
        (bresenham : option Z -> option Z -> option Z -> option Z -> list Canvas.Point)
        (c : Canvas.t) (outer : list Canvas.Point)
        (inner : list (list Canvas.Point)) (color : Z) :
  (Z.of_nat (length outer) < 3 ->
   Canvas.polygon earcut bresenham c (outer :: inner) color = (false, c))
  /\ (3 <= Z.of_nat (length outer) ->
      is_Some (Canvas.collectRings (outer :: inner) [] [])
      /\ Canvas.polygon earcut bresenham c (outer :: inner) color
         = Canvas.polygon earcut bresenham c
             (outer :: filter (fun r => 3 <= Z.of_nat (length r)) inner) color)
  /\ (forall vertices holes,
        Canvas.collectRings (outer :: inner) [] [] = Some (vertices, holes) ->
        earcut vertices holes = None ->
        Canvas.polygon earcut bresenham c (outer :: inner) color = (false, c)).
Proof.
  split; [|split].
  - intros Hlt. unfold Canvas.polygon. cbn.
    destruct (Z.ltb_spec (Z.of_nat (length outer)) 3) as [_|?]; [reflexivity | lia].
  - intros Hge.
    assert (E : forall rest,
               Canvas.collectRings (outer :: rest) [] []
               = Canvas.collectRings rest
                   (flat_map (fun p => [Canvas.px p; Canvas.py p]) outer) []).
    { intros rest. cbn.
      destruct (Z.ltb_spec (Z.of_nat (length outer)) 3) as [?|_]; [lia | reflexivity]. }
    split.
    + rewrite E. apply collectRings_total, outer_pushed, Hge.
    + unfold Canvas.polygon. rewrite !E.
      rewrite collectRings_skip by (apply outer_pushed, Hge). reflexivity.
  - intros vertices holes Hcol Hthrow. unfold Canvas.polygon.
    rewrite Hcol, Hthrow. reflexivity.
Qed.

Lemma polygon_failure_modes_witness :
  let earcut := fun (vertices holes : list Z) =>
                  match holes with [] => Some [0; 1; 2] | _ => None end in
  let bresenham := fun (x0 y0 x1 y1 : option Z) =>
                     match x0, y0 with
                     | Some x, Some y => [Canvas.mkPoint x y]
                     | _, _ => []
                     end in
  let c := Canvas.new 8 8 in
  let dot := [Canvas.mkPoint 1 1] in
  let outer := [Canvas.mkPoint 0 0; Canvas.mkPoint 6 0; Canvas.mkPoint 0 6] in
  let hole := [Canvas.mkPoint 1 1; Canvas.mkPoint 2 1; Canvas.mkPoint 1 2] in
  (Z.of_nat (length dot) < 3
   /\ Canvas.polygon earcut bresenham c [dot; outer] 34 = (false, c))
  /\ (3 <= Z.of_nat (length outer)
      /\ Canvas.polygon earcut bresenham c [outer; dot] 34
         = Canvas.polygon earcut bresenham c [outer] 34
      /\ fst (Canvas.polygon earcut bresenham c [outer; dot] 34) = true)
  /\ (Canvas.collectRings [outer; hole] [] []
      = Some ([0; 0; 6; 0; 0; 6; 1; 1; 2; 1; 1; 2], [3])
      /\ earcut [0; 0; 6; 0; 0; 6; 1; 1; 2; 1; 1; 2] [3] = None
      /\ Canvas.polygon earcut bresenham c [outer; hole] 34 = (false, c)).
Proof.
  intros earcut bresenham c dot outer hole.
  assert (Hdot : Z.of_nat (length dot) < 3) by (cbn; lia).
  assert (Houter : 3 <= Z.of_nat (length outer)) by (cbn; lia).
  assert (Hcol : Canvas.collectRings [outer; hole] [] []
                 = Some ([0; 0; 6; 0; 0; 6; 1; 1; 2; 1; 1; 2], [3]))
    by reflexivity.
  assert (Hthrow : earcut [0; 0; 6; 0; 0; 6; 1; 1; 2; 1; 1; 2] [3] = None)
    by reflexivity.
  split; [|split].
  - split; [exact Hdot|].
    exact (proj1 (polygon_failure_modes earcut bresenham c dot [outer] 34) Hdot).
  - split; [exact Houter|].
    destruct (proj1 (proj2 (polygon_failure_modes earcut bresenham c outer [dot] 34))
                Houter) as [_ E].
    split; [exact E | reflexivity].
  - split; [exact Hcol|]. split; [exact Hthrow|].
    exact (proj2 (proj2 (polygon_failure_modes earcut bresenham c outer [hole] 34))
             _ _ Hcol Hthrow).
Defined.

(** ** LabelBuffer.writeIfPossible *)

Section LabelFacts.

Import LabelBuffer.

Variable Feature : Type.
Variable stringWidth : string -> Z.

Lemma collides_item (tree : list (Item Feature)) (bbox item : Item Feature) :
  item ∈ tree -> intersects bbox item = true -> collides tree bbox = true.
Proof.
  intros Hin Hint. unfold collides. apply existsb_exists.
  exists item. split; [apply list_elem_of_In, Hin | exact Hint].
Qed.

Lemma writeIfPossible_cases (l : t Feature) text x y f m :
  let point := project x y in
  let box := _calculateArea stringWidth text (fst point) (snd point) None in
  let data := _calculateArea stringWidth text (fst point) (snd point)
                             (Some (marginOr l m)) in
  writeIfPossible stringWidth l text x y f m
  = if collides (tree l) box then (false, l)
    else (true, {| tree := tree l ++ [withFeature data f]; margin := margin l |}).
Proof.
  cbn zeta. unfold writeIfPossible, _hasSpace.
  destruct (collides _ _); reflexivity.
Qed.

End LabelFacts.

(** C4, as the code has it.  With [(X, Y) = (floor(x/2), floor(y/4))] and [m]
    the given margin, or the buffer's own margin when none or 0 is given:
    the rectangle tested against the stored ones is the text box without
    margin, [[X, X+width(text)] x [Y, Y]]; on a collision the call refuses
    and changes nothing; otherwise it appends exactly the rectangle
    [[X-m, X+m+width(text)] x [Y-m/2, Y+m/2]] with the feature and accepts.
    Stored rectangles stay stored, and no later call whose text box meets one
    of them is accepted. *)
Theorem writeIfPossible_spec_amended
        (Feature : Type) (stringWidth : string -> Z)
        (l : LabelBuffer.t Feature) (text : string) (x y : Q) (f : Feature)
        (margin : option Q) :
  let X := Qfloor (x / 2) in
  let Y := Qfloor (y / 4) in
  let m := LabelBuffer.marginOr l margin in
  let w := inject_Z (stringWidth text) in
  let box := LabelBuffer.mkItem (inject_Z X - 0) (inject_Z Y - 0 / 2)
               (inject_Z X + 0 + w) (inject_Z Y + 0 / 2) None in
  let rect := LabelBuffer.mkItem (inject_Z X - m) (inject_Z Y - m / 2)
                (inject_Z X + m + w) (inject_Z Y + m / 2) (Some f) in
  let r := LabelBuffer.writeIfPossible stringWidth l text x y f margin in
  (LabelBuffer.collides (LabelBuffer.tree l) box = true -> r = (false, l))
  /\ (LabelBuffer.collides (LabelBuffer.tree l) box = false ->
      r = (true, {| LabelBuffer.tree := LabelBuffer.tree l ++ [rect];
                    LabelBuffer.margin := LabelBuffer.margin l |}))
  /\ (forall item, item ∈ LabelBuffer.tree l -> item ∈ LabelBuffer.tree (snd r))
  /\ (forall item, item ∈ LabelBuffer.tree l ->
        LabelBuffer.intersects box item = true -> r = (false, l)).
Proof.
  intros X Y m w box rect r.
  pose proof (writeIfPossible_cases Feature stringWidth l text x y f margin) as E.
  cbn zeta in E. fold r in E.
  change (LabelBuffer._calculateArea stringWidth text _ _ None) with box in E.
  change (LabelBuffer.withFeature _ f) with rect in E.
  split; [intros Hc; rewrite E, Hc; reflexivity|].
  split; [intros Hc; rewrite E, Hc; reflexivity|].
  split.
  - intros item Hin. rewrite E.
    destruct (LabelBuffer.collides _ _); cbn; [exact Hin|].
    apply elem_of_app. left. exact Hin.
  - intros item Hin Hint. rewrite E.
    rewrite (collides_item Feature _ _ item Hin Hint). reflexivity.
Qed.

Lemma writeIfPossible_spec_amended_witness :
  let width := fun s : string => Z.of_nat (String.length s) in
  let l0 := @LabelBuffer.new unit in
  let first := LabelBuffer.mkItem (5 - 5) (2 - 5 / 2) (5 + 5 + 5) (2 + 5 / 2) (Some tt) in
  let l1 := {| LabelBuffer.tree := [first]; LabelBuffer.margin := 5 |} in
  let box2 := LabelBuffer.mkItem (6 - 0) (2 - 0 / 2) (6 + 0 + 5) (2 + 0 / 2) (@None unit) in
  LabelBuffer.collides (LabelBuffer.tree l0)
    (LabelBuffer.mkItem (5 - 0) (2 - 0 / 2) (5 + 0 + 5) (2 + 0 / 2) (@None unit)) = false
  /\ LabelBuffer.writeIfPossible width l0 "Paris" 10 10 tt (Some 5%Q) = (true, l1)
  /\ first ∈ LabelBuffer.tree l1
  /\ LabelBuffer.intersects box2 first = true
  /\ LabelBuffer.collides (LabelBuffer.tree l1) box2 = true
  /\ LabelBuffer.writeIfPossible width l1 "Paris" 12 10 tt (Some 5%Q) = (false, l1)
  /\ first ∈ LabelBuffer.tree
               (snd (LabelBuffer.writeIfPossible width l1 "Paris" 80 80 tt (Some 5%Q))).
Proof.
  intros width l0 first l1 box2.
  assert (H0 : LabelBuffer.collides (LabelBuffer.tree l0)
                 (LabelBuffer.mkItem (5 - 0) (2 - 0 / 2) (5 + 0 + 5) (2 + 0 / 2)
                                     (@None unit)) = false) by reflexivity.
  assert (Hin : first ∈ LabelBuffer.tree l1) by (apply list_elem_of_singleton; reflexivity).
  assert (Hint : LabelBuffer.intersects box2 first = true) by reflexivity.
  assert (Hcol : LabelBuffer.collides (LabelBuffer.tree l1) box2 = true) by reflexivity.
  split; [exact H0|].
  split.
  { exact (proj1 (proj2 (writeIfPossible_spec_amended unit width l0 "Paris" 10 10 tt
                           (Some 5%Q))) H0). }
  split; [exact Hin|]. split; [exact Hint|]. split; [exact Hcol|].
  split.
  { exact (proj1 (writeIfPossible_spec_amended unit width l1 "Paris" 12 10 tt
                    (Some 5%Q)) Hcol). }
  exact (proj1 (proj2 (proj2 (writeIfPossible_spec_amended unit width l1 "Paris" 80 80 tt
                                (Some 5%Q)))) first Hin).
Defined.

(** C4 as stated fails: after a label at (10, 10), the label at (34, 10) is
    accepted although its rectangle with margin meets the stored one; the
    specified procedure refuses it. *)
Lemma writeIfPossible_margin_not_tested :
  ~ (forall (stringWidth : string -> Z) (l : LabelBuffer.t unit) (text : string)
            (x y m : Q),
       LabelBuffer.writeIfPossible stringWidth l text x y tt (Some m)
       = LabelBuffer.writeIfPossible_spec stringWidth l text x y tt m).
Proof.
  intros H.
  pose (width := fun s : string => Z.of_nat (String.length s)).
  pose (l1 := snd (LabelBuffer.writeIfPossible width LabelBuffer.new "Paris" 10 10 tt
                     (Some 5%Q))).
  specialize (H width l1 "Paris"%string 34%Q 10%Q 5%Q).
  apply (f_equal fst) in H. vm_compute in H. discriminate H.
Qed.

(** ** Styler._compileFilter *)

Section FilterFacts.

Import Styler.

Lemma found_existsb {A} (p : A -> bool) (arr : list A) : found p arr = existsb p arr.
Proof.
  unfold found. induction arr as [|a arr IH]; [reflexivity|].
  cbn. destruct (p a); [reflexivity | exact IH].
Qed.

Lemma existsb_mapped {A B} (g : A -> B) (p : B -> bool) (l : list A) :
  existsb p (map g l) = existsb (fun a => p (g a)) l.
Proof.
  induction l as [|a l IH]; [reflexivity|]. cbn. rewrite IH. reflexivity.
Qed.

Lemma existsb_negb_forallb {A} (p : A -> bool) (l : list A) :
  existsb (fun a => negb (p a)) l = negb (forallb p l).
Proof.
  induction l as [|a l IH]; [reflexivity|].
  cbn. rewrite IH. destruct (p a); reflexivity.
Qed.

End FilterFacts.

(** C1, evaluated on the code.  The predicate compiled from an ["all"]
    filter accepts a feature exactly when some sub-filter rejects it, the
    negation of the conjunction; the conjunction is what the ["none"] case
    computes.  With no sub-filters it rejects every feature, and on a feature
    of class motorway the filter [["all", ["==", "class", "motorway"]]]
    rejects. *)
Theorem all_filter_inverted
        (lessThan : Styler.value -> Styler.value -> option bool)
        (subs : list Styler.filter) (feature : Styler.Feature) :
  Styler._compileFilter lessThan (Styler.All subs) feature
  = negb (forallb (fun sub => Styler._compileFilter lessThan sub feature) subs)
  /\ Styler._compileFilter lessThan (Styler.NoneOf subs) feature
     = forallb (fun sub => Styler._compileFilter lessThan sub feature) subs
  /\ Styler._compileFilter lessThan (Styler.All []) feature = false
  /\ Styler._compileFilter lessThan
       (Styler.All [Styler.Eq "class" (Styler.VStr "motorway")])
       (Styler.mkFeature 2 {[ "class"%string := Styler.VStr "motorway" ]})
     = false.
Proof.
  split; [|split; [|split]].
  - cbn [Styler._compileFilter].
    rewrite found_existsb, existsb_mapped.
    apply existsb_negb_forallb.
  - cbn [Styler._compileFilter].
    rewrite found_existsb, existsb_mapped, existsb_negb_forallb.
    apply negb_involutive.
  - reflexivity.
  - vm_compute. reflexivity.
Qed.

(** ** Tile._loadLayers: the sort key *)

Section TileFacts.

Import Styler Tile.

Lemma addBoundaries_sort deep data n :
  _addBoundaries deep data = Some n -> sort n = sort data.
Proof.
  unfold _addBoundaries. intros H.
  destruct (match nodePoints data with
            | Rings rings => if deep then head rings else None
            | Line line => if deep then None else Some line
            end) as [pts|]; [|discriminate].
  cbn in H. injection H as <-. reflexivity.
Qed.

Lemma prop_withType raw key :
  key <> "$type"%string ->
  prop (withType raw) key = default VUndefined (rawProperties raw !! key).
Proof.
  intros Hk. unfold prop, withType. cbn.
  rewrite lookup_insert_ne by congruence. reflexivity.
Qed.

End TileFacts.

(** The sort key of the records.  Every record that the feature loop builds
    for a feature carries as sort key the feature's [localrank] when that is
    truthy (present and not 0), and otherwise its [scalerank], which is
    [undefined] when the property is absent.  This is the key of the
    specification whenever [localrank] is truthy, or is absent while
    [scalerank] is present. *)
Theorem sort_key_amended
        (lessThan : Styler.value -> Styler.value -> option bool)
        (config : Config.t) (colorCode : option string -> option Z)
        (styler : option Styler.t) (name : string) (raw : Tile.RawFeature)
        (nodes : list Tile.TileFeature) (n : Tile.TileFeature) :
  let localrank := default Styler.VUndefined
                     (Tile.rawProperties raw !! "localrank"%string) in
  let scalerank := default Styler.VUndefined
                     (Tile.rawProperties raw !! "scalerank"%string) in
  Tile.featureNodes lessThan config colorCode styler name raw = Some nodes ->
  n ∈ nodes ->
  Tile.sort n = (if Styler.truthy localrank then localrank else scalerank)
  /\ (Styler.truthy localrank = true
      \/ (Tile.rawProperties raw !! "localrank"%string = None
          /\ is_Some (Tile.rawProperties raw !! "scalerank"%string)) ->
      Tile.sort n = Tile.sortKey_spec (Tile.withType raw)).
Proof.
  intros localrank scalerank Hnodes Hn.
  assert (Hkey : Tile.sortKey (Tile.withType raw)
                 = if Styler.truthy localrank then localrank else scalerank).
  { unfold Tile.sortKey, Styler.orElse.
    rewrite !prop_withType by discriminate. reflexivity. }
  assert (Hsort : Tile.sort n = Tile.sortKey (Tile.withType raw)).
  { unfold Tile.featureNodes in Hnodes.
    destruct styler as [st|]; [|discriminate].
    destruct (Styler.getStyleFor lessThan st name (Tile.withType raw)) as [style|].
    2:{ injection Hnodes as <-. apply elem_of_nil in Hn. contradiction. }
    destruct (Styler.paint style) as [paint|]; [|discriminate].
    cbn [mbind option_bind] in Hnodes.
    destruct (match Tile.paintOr _ _ with
              | Some (Styler.PStr s) => Some (Some s)
              | Some (Styler.PStops stops) => Some <$> (snd <$> head stops)
              | None => Some None
              end) as [color|]; [|discriminate].
    cbn [mbind option_bind] in Hnodes.
    destruct (colorCode color) as [code|]; [|discriminate].
    cbn [mbind option_bind] in Hnodes.
    destruct (bool_decide (Styler.layerType style = Some "fill"%string)).
    - destruct (Tile._addBoundaries true _) as [n'|] eqn:Eb; [|discriminate].
      cbn in Hnodes. injection Hnodes as <-.
      apply list_elem_of_singleton in Hn. subst n'.
      apply addBoundaries_sort in Eb. exact Eb.
    - apply mapM_Some in Hnodes.
      apply list_elem_of_lookup in Hn. destruct Hn as [i Hi].
      destruct (Forall2_lookup_r _ _ _ _ _ Hnodes Hi) as (pts & _ & Eb).
      apply addBoundaries_sort in Eb. exact Eb. }
  split; [rewrite Hsort; exact Hkey|].
  intros Hagree. rewrite Hsort, Hkey.
  unfold Tile.sortKey_spec, Tile.withType. cbn.
  rewrite !lookup_insert_ne by discriminate.
  subst localrank scalerank.
  destruct Hagree as [Ht | [Hnone [v Hv]]].
  - rewrite Ht. destruct (Tile.rawProperties raw !! "localrank"%string); [reflexivity|].
    cbn in Ht. discriminate.
  - rewrite Hnone, Hv. reflexivity.
Qed.

Lemma sort_key_amended_witness :
  exists n,
    Tile.featureNodes (fun _ _ => None) Config.default (fun _ => Some 15)
                      (Some roadStyler) "road" roadTop = Some [n]
    /\ n ∈ [n]
    /\ Tile.sort n = Styler.VNum 3
    /\ Tile.sort n = Tile.sortKey_spec (Tile.withType roadTop).
Proof.
  destruct (Tile.featureNodes (fun _ _ => None) Config.default (fun _ => Some 15)
                              (Some roadStyler) "road" roadTop)
    as [[|n [|n' rest]]|] eqn:E;
    try (vm_compute in E; discriminate E).
  exists n.
  assert (Hin : n ∈ [n]) by (apply list_elem_of_singleton; reflexivity).
  destruct (sort_key_amended _ _ _ _ _ _ _ n E Hin) as [Hsort Hspec].
  split; [reflexivity|]. split; [exact Hin|].
  split; [exact Hsort|].
  apply Hspec. left. reflexivity.
Defined.

(** The specified key is not the key of every record: a road without rank
    properties gets the sort key [undefined], not 0. *)
Lemma sort_key_not_spec :
  ~ (forall (lessThan : Styler.value -> Styler.value -> option bool)
            (config : Config.t) (colorCode : option string -> option Z)
            (styler : option Styler.t) (name : string) (raw : Tile.RawFeature)
            (nodes : list Tile.TileFeature) (n : Tile.TileFeature),
       Tile.featureNodes lessThan config colorCode styler name raw = Some nodes ->
       n ∈ nodes ->
       Tile.sort n = Tile.sortKey_spec (Tile.withType raw)).
Proof.
  intros H.
  destruct (Tile.featureNodes (fun _ _ => None) Config.default (fun _ => Some 15)
                              (Some roadStyler) "road" roadPlain)
    as [[|n [|n' rest]]|] eqn:E;
    try (vm_compute in E; discriminate E).
  assert (Hin : n ∈ [n]) by (apply list_elem_of_singleton; reflexivity).
  specialize (H _ _ _ _ _ _ _ n E Hin).
  vm_compute in E. injection E as <-.
  vm_compute in H. discriminate H.
Qed.

(** The same with a [localrank] of 0: the key falls through to [scalerank]. *)
Lemma sort_key_localrank_zero :
  Tile.sortKey (Tile.withType roadRanked) = Styler.VNum 5
  /\ Tile.sortKey_spec (Tile.withType roadRanked) = Styler.VNum 0.
Proof. split; vm_compute; reflexivity. Qed.

(** ** TileSource.getTile: the eviction block *)

Section CacheFacts.

Import TileSource.

Lemma hasDash_app a b : hasDash (a ++ b) = hasDash a || hasDash b.
Proof.
  induction a as [|c a IH]; [reflexivity|].
  simpl. rewrite IH. apply orb_assoc.
Qed.

Lemma hasDash_uint d : hasDash (NilEmpty.string_of_uint d) = false.
Proof. induction d; cbn; assumption || reflexivity. Qed.

Lemma hasDash_index (i : nat) : hasDash (Js.numToString (Z.of_nat i)) = false.
Proof.
  unfold Js.numToString.
  destruct (Z.of_nat i) as [|p|p] eqn:E; [reflexivity | | lia].
  cbn. destruct (Pos.to_uint p); cbn; try reflexivity; apply hasDash_uint.
Qed.

Lemma hasDash_tileName z x y : hasDash (tileName z x y) = true.
Proof.
  unfold tileName. cbn [Js.join].
  rewrite !hasDash_app. cbn. rewrite !orb_true_r. reflexivity.
Qed.

Lemma delete_indexKeys {Tile A} (removed : list A) (c : gmap string Tile) name :
  hasDash name = true ->
  fold_left (fun c tile => delete tile c) (indexKeys removed) c !! name = c !! name.
Proof.
  intros Hname. unfold indexKeys.
  generalize (seq 0 (length removed)). intros idxs. revert c.
  induction idxs as [|i idxs IH]; intros c; [reflexivity|].
  cbn. rewrite IH. apply lookup_delete_ne.
  intros Heq. pose proof (hasDash_index i) as Hi.
  rewrite Heq in Hi. congruence.
Qed.

Lemma evict_keeps {Tile} (s : t Tile) z x y :
  cache (evict s) !! tileName z x y = cache s !! tileName z x y.
Proof.
  unfold evict. destruct (_ <? _); [|reflexivity].
  cbn. apply delete_indexKeys, hasDash_tileName.
Qed.

End CacheFacts.

(** C3, evaluated on the code.  The eviction block deletes the keys ["0"],
    ["1"], ... from the cache, never a tile name, so no decoded tile leaves
    the cache; and it runs before the new tile is stored.  After eighteen
    calls for distinct tiles the cache holds eighteen decoded tiles, the
    oldest among them, with [cacheSize] 16 and seventeen names listed. *)
Theorem cache_keeps_every_tile (Tile : Type) (s : TileSource.t Tile) (z x y : Z) :
  TileSource.cache (TileSource.evict s) !! TileSource.tileName z x y
  = TileSource.cache s !! TileSource.tileName z x y
  /\ let s18 := TileSource.getTiles (fun _ _ _ => tt)
                  (TileSource.init (Some TileSource.HTTP))
                  (map (fun x => (5, x, 0)) (seqZ 0 18)) in
     TileSource.cacheSize s18 = 16
     /\ size (TileSource.cache s18) = 18%nat
     /\ length (TileSource.cached s18) = 17%nat
     /\ head (TileSource.cached s18) = Some "5-1-0"%string
     /\ TileSource.cache s18 !! "5-0-0"%string = Some tt.
Proof.
  split; [apply evict_keeps|].
  vm_compute. repeat split.
Qed.

(** * Further properties of the modelled code *)

(** ** BrailleBuffer: the mutators *)

Section MutatorFacts.

Import BrailleBuffer.

Lemma bufSet_bytes buf i v : bytes buf -> bytes (bufSet buf i v).
Proof.
  intros Hb. unfold bufSet. destruct (0 <=? i); [|exact Hb].
  apply Forall_insert; [exact Hb|].
  unfold Js.toUint8. apply Z.mod_pos_bound. lia.
Qed.

Lemma bufSet_sized buf i v n :
  Z.of_nat (length buf) = n /\ bytes buf ->
  Z.of_nat (length (bufSet buf i v)) = n /\ bytes (bufSet buf i v).
Proof.
  intros [Hl Hb]. split; [rewrite bufSet_length; exact Hl | apply bufSet_bytes, Hb].
Qed.

Lemma replicate_sized (buf : list Z) n :
  Z.of_nat (length buf) = n ->
  Z.of_nat (length (replicate (length buf) 0)) = n /\ bytes (replicate (length buf) 0).
Proof.
  intros Hl. split; [rewrite length_replicate; exact Hl|].
  apply Forall_replicate. lia.
Qed.

Lemma clear_wf b : wf b -> wf (clear b).
Proof.
  intros [Hw Hh [Lp _] [Lf _] [Lb _]].
  constructor; cbn; try assumption; apply replicate_sized; assumption.
Qed.


Lemma setBackground_wf b x y c : wf b -> wf (setBackground b x y c).
Proof.
  intros Hwf. unfold setBackground. destruct (inRange b x y); [|exact Hwf].
  destruct Hwf as [Hw Hh Hp Hf Hb].
  constructor; cbn; try assumption. apply bufSet_sized, Hb.
Qed.


Lemma setChar_wf b ch x y c : wf b -> wf (setChar b ch x y c).
Proof.
  intros Hwf. unfold setChar. destruct (inRange b x y); [|exact Hwf].
  destruct Hwf as [Hw Hh Hp Hf Hb].
  constructor; cbn; try assumption. apply bufSet_sized, Hf.
Qed.

End MutatorFacts.



(** [setBackground(x, y, c)] with a palette index [c]: outside the buffer
    nothing changes; inside, [bg[i]] of the pixel's cell becomes [c] and
    nothing else changes, neither another background nor any pixel,
    foreground or character. *)
Theorem setBackground_spec (b : BrailleBuffer.t) (x y c : Z) :
  let b' := BrailleBuffer.setBackground b x y c in
  let i := BrailleBuffer._project b x y in
  (~ (0 <= x < BrailleBuffer.width b /\ 0 <= y < BrailleBuffer.height b) -> b' = b)
  /\ (BrailleBuffer.wf b -> 0 <= c < 256 ->
      0 <= x < BrailleBuffer.width b -> 0 <= y < BrailleBuffer.height b ->
      BrailleBuffer.bufGet (BrailleBuffer.backgroundBuffer b') i = Some c
      /\ (forall j, j <> i ->
            BrailleBuffer.bufGet (BrailleBuffer.backgroundBuffer b') j
            = BrailleBuffer.bufGet (BrailleBuffer.backgroundBuffer b) j)
      /\ BrailleBuffer.pixelBuffer b' = BrailleBuffer.pixelBuffer b
      /\ BrailleBuffer.foregroundBuffer b' = BrailleBuffer.foregroundBuffer b
      /\ BrailleBuffer.charBuffer b' = BrailleBuffer.charBuffer b
      /\ BrailleBuffer.globalBackground b' = BrailleBuffer.globalBackground b).
Proof.
  intros b' i. subst b'. unfold BrailleBuffer.setBackground. split.
  - intros Hout. rewrite inRange_false by assumption. reflexivity.
  - intros Hwf Hc Hx Hy.
    rewrite (proj2 (inRange_true b x y)) by lia. cbn. fold i.
    destruct (project_in_range b x y Hwf Hx Hy) as [_ Hi]. fold i in Hi.
    destruct Hwf as [_ _ _ _ [Lb _]].
    split.
    { rewrite bufGet_bufSet_eq by lia.
      unfold Js.toUint8. rewrite Z.mod_small by lia. reflexivity. }
    split; [intros j Hj; apply bufGet_bufSet_ne, Hj|].
    repeat split.
Qed.

Lemma setBackground_spec_witness :
  let b := BrailleBuffer.new 4 8 in
  BrailleBuffer.wf b /\ 0 <= 7 < 256 /\ 0 <= 2 < 4 /\ 0 <= 5 < 8
  /\ ~ (0 <= 4 < 4 /\ 0 <= 0 < 8)
  /\ BrailleBuffer.setBackground b 4 0 7 = b
  /\ BrailleBuffer.bufGet
       (BrailleBuffer.backgroundBuffer (BrailleBuffer.setBackground b 2 5 7)) 3
     = Some 7.
Proof.
  intros b.
  assert (Hwf : BrailleBuffer.wf b).
  { apply new_wf; [lia | reflexivity | lia | reflexivity]. }
  assert (Hout : ~ (0 <= 4 < 4 /\ 0 <= 0 < 8)) by lia.
  split; [exact Hwf|]. split; [lia|]. split; [lia|]. split; [lia|].
  split; [exact Hout|]. split.
  - exact (proj1 (setBackground_spec b 4 0 7) Hout).
  - destruct (proj2 (setBackground_spec b 2 5 7) Hwf) as [Hbg _];
      [lia | cbn; lia | cbn; lia | exact Hbg].
Defined.

(** [unsetPixel(x, y)]: outside the buffer nothing changes; inside, the
    canonical bit of the pixel is cleared in [pixel[i]], every other cell of
    [pixel] stays, and foreground, background and characters are untouched:
    the color of an erased pixel stays behind in [fg[i]]. *)
Theorem unsetPixel_spec (b : BrailleBuffer.t) (x y : Z) :
  let b' := BrailleBuffer.unsetPixel b x y in
  let i := BrailleBuffer._project b x y in
  let bit := BrailleBuffer.canonicalBit (x mod 2) (y mod 4) in
  (~ (0 <= x < BrailleBuffer.width b /\ 0 <= y < BrailleBuffer.height b) -> b' = b)
  /\ (BrailleBuffer.wf b ->
      0 <= x < BrailleBuffer.width b -> 0 <= y < BrailleBuffer.height b ->
      (exists p,
         BrailleBuffer.bufGet (BrailleBuffer.pixelBuffer b) i = Some p
         /\ BrailleBuffer.bufGet (BrailleBuffer.pixelBuffer b') i
            = Some (Z.land p (Z.lnot bit))
         /\ Z.land (Z.land p (Z.lnot bit)) bit = 0)
      /\ (forall j, j <> i ->
            BrailleBuffer.bufGet (BrailleBuffer.pixelBuffer b') j
            = BrailleBuffer.bufGet (BrailleBuffer.pixelBuffer b) j)
      /\ BrailleBuffer.foregroundBuffer b' = BrailleBuffer.foregroundBuffer b
      /\ BrailleBuffer.backgroundBuffer b' = BrailleBuffer.backgroundBuffer b
      /\ BrailleBuffer.charBuffer b' = BrailleBuffer.charBuffer b).
Proof.
  intros b' i bit. split.
  - intros Hout. subst b'. unfold BrailleBuffer.unsetPixel, BrailleBuffer._locate.
    rewrite inRange_false by assumption. reflexivity.
  - intros Hwf Hx Hy.
    destruct (project_in_range b x y Hwf Hx Hy) as [_ Hi]. fold i in Hi.
    pose proof Hwf as [_ _ [Lp Bp] _ _].
    destruct (bufGet_in_range (BrailleBuffer.pixelBuffer b) i) as [p Hp]; [lia|].
    pose proof (bufGet_byte _ _ _ Bp Hp) as Hpb.
    pose proof (canonicalBit_byte x y) as Hbit. fold bit in Hbit.
    subst b'. rewrite unsetPixel_in_range by assumption. cbn. fold i bit.
    split.
    { exists p. split; [exact Hp|]. split.
      - rewrite bufGet_bufSet_eq by lia.
        unfold BrailleBuffer.bufOperand. rewrite Hp. cbn.
        rewrite and_not_byte by assumption.
        unfold Js.toUint8. rewrite Z.mod_small; [reflexivity|].
        apply land_lnot_byte; assumption.
      - apply Z.bits_inj'. intros n Hn.
        rewrite !Z.land_spec, Z.lnot_spec, Z.bits_0 by lia.
        destruct (Z.testbit p n), (Z.testbit bit n); reflexivity. }
    split; [intros j Hj; apply bufGet_bufSet_ne, Hj|].
    repeat split.
Qed.

Lemma unsetPixel_spec_witness :
  let b := BrailleBuffer.setPixel (BrailleBuffer.new 4 4) 1 0 9 in
  BrailleBuffer.wf b /\ 0 <= 1 < 4 /\ 0 <= 0 < 4
  /\ ~ (0 <= 1 < 4 /\ 0 <= 4 < 4)
  /\ BrailleBuffer.unsetPixel b 1 4 = b
  /\ BrailleBuffer.bufGet (BrailleBuffer.pixelBuffer b) 0 = Some 8
  /\ (forall j, j <> 0 ->
        BrailleBuffer.bufGet (BrailleBuffer.pixelBuffer (BrailleBuffer.unsetPixel b 1 0)) j
        = BrailleBuffer.bufGet (BrailleBuffer.pixelBuffer b) j).
Proof.
  intros b.
  assert (Hwf : BrailleBuffer.wf b).
  { apply setPixel_wf, new_wf; [lia | reflexivity | lia | reflexivity]. }
  assert (Hout : ~ (0 <= 1 < 4 /\ 0 <= 4 < 4)) by lia.
  split; [exact Hwf|]. split; [lia|]. split; [lia|]. split; [exact Hout|].
  split; [exact (proj1 (unsetPixel_spec b 1 4) Hout)|].
  split; [reflexivity|].
  destruct (proj2 (unsetPixel_spec b 1 0) Hwf) as (_ & Hother & _);
    [cbn; lia | cbn; lia | exact Hother].
Defined.

Section PixelOrder.

Import BrailleBuffer.

(** On an in-range pixel, [setPixel] alters one cell of [pixel] by ORing
    the bit in. *)
Lemma setPixel_pixelBuffer b x y c :
  wf b -> 0 <= x < width b -> 0 <= y < height b ->
  pixelBuffer (setPixel b x y c)
  = alter (fun p => Z.lor p (canonicalBit (x mod 2) (y mod 4)))
          (Z.to_nat (_project b x y)) (pixelBuffer b).
Proof.
  intros Hwf Hx Hy.
  destruct (project_in_range b x y Hwf Hx Hy) as [_ Hi].
  pose proof Hwf as [_ _ [Lp Bp] _ _].
  rewrite setPixel_in_range by assumption. cbn.
  set (i := _project b x y) in *. set (bit := canonicalBit _ _).
  destruct (bufGet_in_range (pixelBuffer b) i) as [p Hp]; [lia|].
  pose proof (bufGet_byte _ _ _ Bp Hp) as Hpb.
  pose proof (canonicalBit_byte x y) as Hbit. fold bit in Hbit.
  unfold bufOperand. rewrite Hp. cbn.
  unfold bufSet, bufGet in *. destruct (0 <=? i) eqn:E; [|lia].
  rewrite or_byte by assumption.
  unfold Js.toUint8. rewrite Z.mod_small by (apply lor_byte; assumption).
  apply list_eq. intros k.
  destruct (decide (k = Z.to_nat i)) as [->|Hk].
  - rewrite list_lookup_insert_eq by lia.
    rewrite list_lookup_alter_eq, Hp. reflexivity.
  - rewrite list_lookup_insert_ne, list_lookup_alter_ne by congruence. reflexivity.
Qed.

Lemma setPixel_dims b x y c :
  width (setPixel b x y c) = width b /\ height (setPixel b x y c) = height b.
Proof.
  unfold setPixel, _locate. destruct (negb _); split; reflexivity.
Qed.

Lemma setPixel_outside b x y c :
  ~ (0 <= x < width b /\ 0 <= y < height b) -> setPixel b x y c = b.
Proof.
  intros Hout. unfold setPixel, _locate.
  rewrite inRange_false by assumption. reflexivity.
Qed.

Lemma setPixel_rest b x y c :
  backgroundBuffer (setPixel b x y c) = backgroundBuffer b
  /\ charBuffer (setPixel b x y c) = charBuffer b
  /\ globalBackground (setPixel b x y c) = globalBackground b.
Proof.
  unfold setPixel, _locate. destruct (negb _); repeat split.
Qed.

End PixelOrder.

(** The pixel bits do not depend on the order of drawing: two [setPixel]
    calls in either order leave the same [pixel] array (and the same
    backgrounds and characters); only the foreground color of a shared
    cell is the one written last. *)
Theorem setPixel_order (b : BrailleBuffer.t) (x1 y1 c1 x2 y2 c2 : Z) :
  BrailleBuffer.wf b ->
  let b12 := BrailleBuffer.setPixel (BrailleBuffer.setPixel b x1 y1 c1) x2 y2 c2 in
  let b21 := BrailleBuffer.setPixel (BrailleBuffer.setPixel b x2 y2 c2) x1 y1 c1 in
  BrailleBuffer.pixelBuffer b12 = BrailleBuffer.pixelBuffer b21
  /\ BrailleBuffer.backgroundBuffer b12 = BrailleBuffer.backgroundBuffer b21
  /\ BrailleBuffer.charBuffer b12 = BrailleBuffer.charBuffer b21.
Proof.
  intros Hwf b12 b21. subst b12 b21.
  split.
  2:{ pose proof (setPixel_rest b x1 y1 c1) as (B1 & C1 & _).
      pose proof (setPixel_rest b x2 y2 c2) as (B2 & C2 & _).
      pose proof (setPixel_rest (BrailleBuffer.setPixel b x1 y1 c1) x2 y2 c2)
        as (B12 & C12 & _).
      pose proof (setPixel_rest (BrailleBuffer.setPixel b x2 y2 c2) x1 y1 c1)
        as (B21 & C21 & _).
      split; congruence. }
  pose proof (setPixel_dims b x1 y1 c1) as [W1 H1].
  pose proof (setPixel_dims b x2 y2 c2) as [W2 H2].
  pose proof (setPixel_wf b x1 y1 c1 Hwf) as Hwf1.
  pose proof (setPixel_wf b x2 y2 c2 Hwf) as Hwf2.
  destruct (decide (0 <= x1 < BrailleBuffer.width b /\ 0 <= y1 < BrailleBuffer.height b))
    as [[Hx1 Hy1]|Hout1].
  2:{ rewrite (setPixel_outside b x1 y1 c1) by assumption.
      rewrite (setPixel_outside (BrailleBuffer.setPixel b x2 y2 c2) x1 y1 c1)
        by (rewrite W2, H2; assumption).
      reflexivity. }
  destruct (decide (0 <= x2 < BrailleBuffer.width b /\ 0 <= y2 < BrailleBuffer.height b))
    as [[Hx2 Hy2]|Hout2].
  2:{ rewrite (setPixel_outside b x2 y2 c2) by assumption.
      rewrite (setPixel_outside (BrailleBuffer.setPixel b x1 y1 c1) x2 y2 c2)
        by (rewrite W1, H1; assumption).
      reflexivity. }
  rewrite (setPixel_pixelBuffer (BrailleBuffer.setPixel b x1 y1 c1) x2 y2 c2)
    by (rewrite ?W1, ?H1; assumption).
  rewrite (setPixel_pixelBuffer (BrailleBuffer.setPixel b x2 y2 c2) x1 y1 c1)
    by (rewrite ?W2, ?H2; assumption).
  rewrite !setPixel_pixelBuffer by assumption.
  unfold BrailleBuffer._project. rewrite W1, W2.
  fold (BrailleBuffer._project b x1 y1). fold (BrailleBuffer._project b x2 y2).
  set (i1 := Z.to_nat (BrailleBuffer._project b x1 y1)).
  set (i2 := Z.to_nat (BrailleBuffer._project b x2 y2)).
  destruct (decide (i1 = i2)) as [->|Hne].
  - rewrite !list_alter_alter_eq. apply list_alter_ext; [|reflexivity].
    intros p _. cbn. rewrite <- !Z.lor_assoc. f_equal. apply Z.lor_comm.
  - apply list_alter_alter_ne. congruence.
Qed.

Lemma setPixel_order_witness :
  let b := BrailleBuffer.new 4 4 in
  BrailleBuffer.wf b
  /\ BrailleBuffer.pixelBuffer
       (BrailleBuffer.setPixel (BrailleBuffer.setPixel b 0 0 1) 1 3 2)
     = BrailleBuffer.pixelBuffer
         (BrailleBuffer.setPixel (BrailleBuffer.setPixel b 1 3 2) 0 0 1).
Proof.
  intros b.
  assert (Hwf : BrailleBuffer.wf b).
  { apply new_wf; [lia | reflexivity | lia | reflexivity]. }
  split; [exact Hwf|].
  exact (proj1 (setPixel_order b 0 0 1 1 3 2 Hwf)).
Defined.

(** ** BrailleBuffer: what a frame shows *)

Section GlyphFacts.

Import BrailleBuffer.

Variable stringWidth : string -> Z.
Variable config : Config.t.

Lemma glyphs_snoc out i :
  glyphs (out ++ [i])
  = glyphs out ++ match i with Braille code => [code] | _ => [] end.
Proof. unfold glyphs. rewrite omap_app. destruct i; reflexivity. Qed.

(** Without override characters and in braille mode, a cell pushes its
    glyph and nothing is skipped. *)
Lemma cell_glyph b y x st :
  charBuffer b = ∅ -> Config.useBraille config = true -> skip st = 0 ->
  glyphs (output (cell stringWidth config b y x st))
  = glyphs (output st) ++ [brailleCode (readAt (pixelBuffer b) (frameIdx b y x))]
  /\ skip (cell stringWidth config b y x st) = 0.
Proof.
  intros Hchar Hbraille Hskip. unfold cell.
  assert (Hnone : frameIdx b y x ≫= (fun i => charBuffer b !! i) = None).
  { rewrite Hchar. destruct (frameIdx b y x); [apply lookup_empty | reflexivity]. }
  rewrite Hnone, Hskip, Hbraille. cbn [Z.eqb].
  repeat case_match; simplify_eq; cbn [output skip];
    rewrite !glyphs_snoc, ?app_nil_r; split; reflexivity.
Qed.

Lemma cells_glyphs b y xs st :
  charBuffer b = ∅ -> Config.useBraille config = true -> skip st = 0 ->
  let st' := fold_left (fun st x => cell stringWidth config b y x st) xs st in
  glyphs (output st')
  = glyphs (output st)
    ++ map (fun x => brailleCode (readAt (pixelBuffer b) (frameIdx b y x))) xs
  /\ skip st' = 0.
Proof.
  intros Hchar Hbraille. revert st.
  induction xs as [|x xs IH]; intros st Hskip; cbn.
  - rewrite app_nil_r. split; [reflexivity | exact Hskip].
  - destruct (cell_glyph b y x st Hchar Hbraille Hskip) as [Eg Es].
    destruct (IH _ Es) as [Eg' Es']. cbn zeta in Eg'.
    split; [|exact Es'].
    rewrite Eg', Eg, <- app_assoc. reflexivity.
Qed.

Lemma rows_glyphs b ys st :
  charBuffer b = ∅ -> Config.useBraille config = true ->
  glyphs (output (fold_left (row stringWidth config b) ys st))
  = glyphs (output st)
    ++ flat_map (fun y =>
                   map (fun x => brailleCode (readAt (pixelBuffer b) (frameIdx b y x)))
                       (seqZ 0 (iterations (width b) 2))) ys.
Proof.
  intros Hchar Hbraille. revert st.
  induction ys as [|y ys IH]; intros st; cbn [fold_left flat_map].
  - rewrite app_nil_r. reflexivity.
  - rewrite IH. unfold row.
    destruct (cells_glyphs b y (seqZ 0 (iterations (width b) 2))
                {| output := output st; currentColor := currentColor st; skip := 0 |}
                Hchar Hbraille eq_refl) as [Eg _].
    cbn zeta in Eg. rewrite Eg. cbn [output]. rewrite <- app_assoc. reflexivity.
Qed.

(** Rows of [w] cells, one after the other, enumerate the cell indices. *)
Lemma flat_rows {A} (g : Z -> A) (w : Z) (h : nat) :
  0 <= w ->
  flat_map (fun y => map (fun x => g (y * w + x)) (seqZ 0 w)) (seqZ 0 (Z.of_nat h))
  = map g (seqZ 0 (Z.of_nat h * w)).
Proof.
  intros Hw. induction h as [|h IH].
  - reflexivity.
  - rewrite seqZ_S, flat_map_app, IH. cbn [flat_map]. rewrite app_nil_r.
    replace (Z.of_nat (S h) * w) with (Z.of_nat h * w + w) by lia.
    rewrite seqZ_app by lia. rewrite map_app. f_equal.
    replace (0 + Z.of_nat h * w) with (Z.of_nat h * w + 0) by lia.
    rewrite <- (fmap_add_seqZ (Z.of_nat h * w) 0 w).
    change (Z.add (Z.of_nat h * w) <$> seqZ 0 w)
      with (map (Z.add (Z.of_nat h * w)) (seqZ 0 w)).
    rewrite map_map. apply map_ext. intros x. reflexivity.
Qed.

Lemma map_bufGet {A} (f : option Z -> A) (buf : list Z) :
  map (fun i => f (bufGet buf i)) (seqZ 0 (Z.of_nat (length buf)))
  = map (fun p => f (Some p)) buf.
Proof.
  apply list_eq. intros k.
  change (map ?f ?l) with (fmap f l). rewrite !list_lookup_fmap.
  destruct (buf !! k) as [p|] eqn:Hk.
  - pose proof (lookup_lt_Some _ _ _ Hk) as Hlt.
    rewrite lookup_seqZ_lt by lia. cbn.
    unfold bufGet. destruct (0 <=? 0 + Z.of_nat k) eqn:E; [|lia].
    replace (Z.to_nat (0 + Z.of_nat k)) with k by lia. rewrite Hk. reflexivity.
  - pose proof (lookup_ge_None_1 _ _ Hk) as Hge.
    rewrite lookup_seqZ_ge by lia. reflexivity.
Qed.

Lemma wf_grid b :
  wf b ->
  iterations (width b) 2 = width b / 2
  /\ iterations (height b) 4 = height b / 4
  /\ 0 <= width b / 2 /\ 0 <= height b / 4
  /\ height b / 4 * (width b / 2) = Z.of_nat (length (pixelBuffer b))
  /\ forall y x, frameIdx b y x = Some (y * (width b / 2) + x).
Proof.
  intros [[Hw Hw2] [Hh Hh4] [Lp _] _ _].
  pose proof (Z.div_mod (width b) 2 ltac:(lia)) as Ew.
  pose proof (Z.div_mod (height b) 4 ltac:(lia)) as Eh.
  unfold iterations.
  split; [|split].
  - replace (width b + 2 - 1) with (1 + width b / 2 * 2) by lia.
    rewrite Z.div_add by lia. reflexivity.
  - replace (height b + 4 - 1) with (3 + height b / 4 * 4) by lia.
    rewrite Z.div_add by lia. reflexivity.
  - split; [apply Z.div_pos; lia|]. split; [apply Z.div_pos; lia|].
    split.
    + rewrite Lp. symmetry.
      replace (width b * height b) with (height b / 4 * (width b / 2) * 8) by lia.
      apply Z.div_mul. lia.
    + intros y x. unfold frameIdx.
      replace (y * width b) with (y * (width b / 2) * 2) by lia.
      rewrite Z.mod_mul by lia. cbn. rewrite Z.div_mul by lia. reflexivity.
Qed.

Lemma frame_glyphs_raw b :
  wf b -> charBuffer b = ∅ -> Config.useBraille config = true ->
  glyphs (frameItems stringWidth config b)
  = map (fun p => brailleCode (Some p)) (pixelBuffer b).
Proof.
  intros Hwf Hchar Hbraille.
  destruct (wf_grid b Hwf) as (Ec & Er & Hc & Hr & En & Hidx).
  unfold frameItems. rewrite glyphs_snoc, app_nil_r.
  rewrite rows_glyphs by assumption. cbn [output glyphs omap app].
  rewrite Ec, Er.
  rewrite <- (Z2Nat.id (height b / 4)) by exact Hr.
  erewrite flat_map_ext.
  2:{ intros y. apply map_ext. intros x. rewrite Hidx. reflexivity. }
  rewrite (flat_rows (fun i => brailleCode (readAt (pixelBuffer b) (Some i)))) by exact Hc.
  rewrite Z2Nat.id by exact Hr. rewrite En.
  apply (map_bufGet brailleCode).
Qed.

(** Every SGR sequence pushed for a cell is the color code of a cell. *)
Lemma frame_colors (P : string -> Prop) b :
  (forall idx, P (cellColor b idx)) ->
  Forall P (cellSgr (frameItems stringWidth config b)).
Proof.
  intros HP. unfold frameItems. rewrite cellSgr_snoc. cbn. rewrite app_nil_r.
  assert (Hcells : forall y xs st,
             Forall P (cellSgr (output st)) ->
             Forall P (cellSgr (output
               (fold_left (fun st x => cell stringWidth config b y x st) xs st)))).
  { intros y xs. induction xs as [|x xs IH]; intros st Hst; [exact Hst|].
    cbn. apply IH.
    destruct (cell_sgr stringWidth config b y x st) as [-> _].
    apply Forall_app. split; [exact Hst|].
    destruct (bool_decide _); [constructor|].
    constructor; [apply HP | constructor]. }
  generalize (seqZ 0 (iterations (height b) 4)). intros ys.
  assert (H0 : Forall P (cellSgr (output {| output := []; currentColor := None;
                                            skip := 0 |}))) by constructor.
  revert H0. generalize {| output := []; currentColor := None; skip := 0 |}.
  induction ys as [|y ys IH]; intros st Hst; [exact Hst|].
  cbn. apply IH. unfold row. apply Hcells. exact Hst.
Qed.

End GlyphFacts.

(** In braille mode and without override characters, the glyphs of a frame
    are the cells of the pixel array, in order: one code unit
    [0x2800 + pixel[i]] per cell, none skipped and none added. *)
Theorem frame_glyphs (stringWidth : string -> Z) (config : Config.t)
        (b : BrailleBuffer.t) :
  BrailleBuffer.wf b ->
  BrailleBuffer.charBuffer b = ∅ ->
  Config.useBraille config = true ->
  BrailleBuffer.glyphs (BrailleBuffer.frameItems stringWidth config b)
  = map (fun p => 0x2800 + p) (BrailleBuffer.pixelBuffer b).
Proof.
  intros Hwf Hchar Hbraille.
  rewrite frame_glyphs_raw by assumption.
  destruct Hwf as [_ _ [_ Bp] _ _].
  apply map_ext_in. intros p Hp.
  unfold BrailleBuffer.bytes in Bp. rewrite Forall_forall in Bp.
  specialize (Bp p (proj2 (list_elem_of_In _ _) Hp)).
  cbn. apply Z.mod_small. lia.
Qed.

Lemma frame_glyphs_witness :
  let b := BrailleBuffer.setPixel (BrailleBuffer.setPixel (BrailleBuffer.new 4 4) 0 0 9)
             3 2 196 in
  BrailleBuffer.wf b /\ BrailleBuffer.charBuffer b = ∅
  /\ Config.useBraille Config.default = true
  /\ BrailleBuffer.glyphs (BrailleBuffer.frameItems (fun _ => 1) Config.default b)
     = [0x2801; 0x2820].
Proof.
  intros b.
  assert (Hwf : BrailleBuffer.wf b).
  { apply setPixel_wf, setPixel_wf, new_wf; [lia | reflexivity | lia | reflexivity]. }
  assert (Hchar : BrailleBuffer.charBuffer b = ∅) by reflexivity.
  split; [exact Hwf|]. split; [exact Hchar|]. split; [reflexivity|].
  rewrite (frame_glyphs (fun _ => 1) Config.default b Hwf Hchar eq_refl).
  reflexivity.
Defined.

(** After [clear()], in braille mode and with no global background set, a
    frame shows the empty glyph [U+2800] in every cell and every color code
    it emits is the reset.  [clear()] does not touch the global background. *)
Theorem frame_after_clear (stringWidth : string -> Z) (config : Config.t)
        (b : BrailleBuffer.t) :
  BrailleBuffer.wf b ->
  Config.useBraille config = true ->
  BrailleBuffer.globalBackground b = None ->
  let out := BrailleBuffer.frameItems stringWidth config (BrailleBuffer.clear b) in
  BrailleBuffer.glyphs out
  = replicate (length (BrailleBuffer.pixelBuffer b)) 0x2800
  /\ Forall (fun code => code = BrailleBuffer.termReset) (BrailleBuffer.emittedSgr out)
  /\ BrailleBuffer.globalBackground (BrailleBuffer.clear b)
     = BrailleBuffer.globalBackground b.
Proof.
  intros Hwf Hbraille Hglobal out. subst out.
  split; [|split; [|reflexivity]].
  - rewrite frame_glyphs_raw by (try apply clear_wf; assumption || reflexivity).
    cbn [BrailleBuffer.clear BrailleBuffer.pixelBuffer].
    generalize (length (BrailleBuffer.pixelBuffer b)). intros n.
    induction n as [|n IH]; [reflexivity|].
    cbn [replicate map]. rewrite IH. reflexivity.
  - rewrite frameItems_emittedSgr. apply Forall_app. split; [|repeat constructor].
    apply frame_colors. intros idx.
    assert (Hzero : forall n i,
               BrailleBuffer.orNull
                 (BrailleBuffer.readAt (replicate n 0) i) = None).
    { intros n [i|]; [|reflexivity]. cbn. unfold BrailleBuffer.bufGet.
      destruct (0 <=? i); [|reflexivity].
      destruct (replicate n 0 !! Z.to_nat i) as [v|] eqn:E; [|reflexivity].
      apply lookup_replicate in E. destruct E as [-> _]. reflexivity. }
    unfold BrailleBuffer.cellColor.
    cbn [BrailleBuffer.clear BrailleBuffer.foregroundBuffer
         BrailleBuffer.backgroundBuffer].
    rewrite !Hzero.
    unfold BrailleBuffer._termColor.
    cbn [BrailleBuffer.clear BrailleBuffer.globalBackground].
    rewrite Hglobal. reflexivity.
Qed.

Lemma frame_after_clear_witness :
  let b := BrailleBuffer.setBackground
             (BrailleBuffer.setPixel (BrailleBuffer.new 4 4) 0 0 9) 2 0 7 in
  BrailleBuffer.wf b /\ Config.useBraille Config.default = true
  /\ BrailleBuffer.globalBackground b = None
  /\ BrailleBuffer.glyphs
       (BrailleBuffer.frameItems (fun _ => 1) Config.default (BrailleBuffer.clear b))
     = [0x2800; 0x2800].
Proof.
  intros b.
  assert (Hwf : BrailleBuffer.wf b).
  { apply setBackground_wf, setPixel_wf, new_wf; [lia | reflexivity | lia | reflexivity]. }
  split; [exact Hwf|]. split; [reflexivity|]. split; [reflexivity|].
  exact (proj1 (frame_after_clear (fun _ => 1) Config.default b Hwf eq_refl eq_refl)).
Defined.

(** ** Canvas.polygon: what drawing can change *)

Section DrawFacts.

Import Canvas.

Variable earcut : list Z -> list Z -> option (list Z).
Variable bresenham : option Z -> option Z -> option Z -> option Z -> list Point.

(** A property of buffers that [setPixel] keeps. *)
Variable P : BrailleBuffer.t -> Prop.
Hypothesis P_setPixel : forall b x y color, P b -> P (BrailleBuffer.setPixel b x y color).

Lemma fillSpans_keeps c b points color :
  P b -> P (fillSpans c b points color).
Proof.
  revert b. induction points as [|point rest IH]; intros b Hb; [exact Hb|].
  cbn [fillSpans]. destruct rest as [|next rest'].
  - apply P_setPixel, Hb.
  - apply IH.
    destruct (py point =? py next); [|apply P_setPixel, Hb].
    destruct (_ && _); [|exact Hb].
    generalize (seqZ (Z.max 0 (px point))
                  (Z.min (width c - 1) (px next) - Z.max 0 (px point) + 1)).
    intros xs. revert b Hb.
    induction xs as [|x xs IHx]; intros b Hb; [exact Hb|].
    cbn. apply IHx, P_setPixel, Hb.
Qed.

Lemma drawTriangles_keeps c vertices triangles color :
  P (buffer c) -> P (buffer (drawTriangles bresenham c vertices triangles color))
  /\ width (drawTriangles bresenham c vertices triangles color) = width c
  /\ height (drawTriangles bresenham c vertices triangles color) = height c.
Proof.
  remember (length triangles) as n eqn:Hn.
  revert c triangles Hn.
  induction n as [n IH] using lt_wf_ind. intros c triangles Hn Hc.
  destruct triangles as [|i0 rest0]; [repeat split; exact Hc|].
  cbn [drawTriangles].
  set (c' := _filledTriangle bresenham c _ _ _ color).
  assert (Hc' : P (buffer c') /\ width c' = width c /\ height c' = height c).
  { subst c'. unfold _filledTriangle, withBuffer. cbn.
    split; [apply fillSpans_keeps, Hc | split; reflexivity]. }
  destruct Hc' as (Hb' & Hw' & Hh').
  destruct rest0 as [|i1 [|i2 rest]]; try (repeat split; assumption).
  destruct (IH (length rest) ltac:(subst n; cbn; lia) c' rest eq_refl Hb')
    as (Hb'' & Hw'' & Hh'').
  repeat split; [exact Hb'' | congruence | congruence].
Qed.

Lemma polygon_keeps c rings color :
  P (buffer c) ->
  P (buffer (snd (polygon earcut bresenham c rings color)))
  /\ width (snd (polygon earcut bresenham c rings color)) = width c
  /\ height (snd (polygon earcut bresenham c rings color)) = height c.
Proof.
  intros Hc. unfold polygon.
  destruct (collectRings rings [] []) as [[vertices holes]|]; [|repeat split; exact Hc].
  destruct (earcut vertices holes) as [triangles|]; [|repeat split; exact Hc].
  cbn [snd]. apply drawTriangles_keeps, Hc.
Qed.

End DrawFacts.

Section DrawnBits.

Import BrailleBuffer.

(** [setPixel] never clears a bit of the pixel array. *)
Lemma setPixel_keeps_bits b x y c i p :
  wf b -> bufGet (pixelBuffer b) i = Some p ->
  exists p', bufGet (pixelBuffer (setPixel b x y c)) i = Some p' /\ Z.land p' p = p.
Proof.
  intros Hwf Hp.
  destruct (decide (0 <= x < width b /\ 0 <= y < height b)) as [[Hx Hy]|Hout].
  2:{ rewrite setPixel_outside by assumption. exists p. split; [exact Hp|].
      apply Z.land_diag. }
  rewrite setPixel_pixelBuffer by assumption.
  unfold bufGet in *. destruct (0 <=? i); [|discriminate].
  destruct (decide (Z.to_nat (_project b x y) = Z.to_nat i)) as [E|Hne].
  - rewrite E, list_lookup_alter_eq, Hp. cbn. eexists. split; [reflexivity|].
    apply Z.bits_inj'. intros n Hn.
    rewrite Z.land_spec, Z.lor_spec.
    destruct (Z.testbit p n), (Z.testbit (canonicalBit (x mod 2) (y mod 4)) n);
      reflexivity.
  - rewrite list_lookup_alter_ne by exact Hne. exists p. split; [exact Hp|].
    apply Z.land_diag.
Qed.

End DrawnBits.

(** [polygon] changes the canvas only by setting pixels: whatever the
    rings and whatever the triangulation returns, the canvas keeps its size
    and a well-formed buffer, backgrounds, override characters and the global
    background are untouched, and no pixel that was set is erased. *)
Theorem polygon_only_sets_pixels
        (earcut : list Z -> list Z -> option (list Z))
        (bresenham : option Z -> option Z -> option Z -> option Z -> list Canvas.Point)
        (c : Canvas.t) (rings : list (list Canvas.Point)) (color : Z) :
  BrailleBuffer.wf (Canvas.buffer c) ->
  let c' := snd (Canvas.polygon earcut bresenham c rings color) in
  Canvas.width c' = Canvas.width c /\ Canvas.height c' = Canvas.height c
  /\ BrailleBuffer.wf (Canvas.buffer c')
  /\ BrailleBuffer.backgroundBuffer (Canvas.buffer c')
     = BrailleBuffer.backgroundBuffer (Canvas.buffer c)
  /\ BrailleBuffer.charBuffer (Canvas.buffer c')
     = BrailleBuffer.charBuffer (Canvas.buffer c)
  /\ BrailleBuffer.globalBackground (Canvas.buffer c')
     = BrailleBuffer.globalBackground (Canvas.buffer c)
  /\ (forall i p,
        BrailleBuffer.bufGet (BrailleBuffer.pixelBuffer (Canvas.buffer c)) i = Some p ->
        exists p',
          BrailleBuffer.bufGet (BrailleBuffer.pixelBuffer (Canvas.buffer c')) i = Some p'
          /\ Z.land p' p = p).
Proof.
  intros Hwf c'.
  pose (b0 := Canvas.buffer c).
  pose (P := fun b : BrailleBuffer.t =>
               BrailleBuffer.wf b
               /\ BrailleBuffer.backgroundBuffer b = BrailleBuffer.backgroundBuffer b0
               /\ BrailleBuffer.charBuffer b = BrailleBuffer.charBuffer b0
               /\ BrailleBuffer.globalBackground b = BrailleBuffer.globalBackground b0
               /\ (forall i p,
                     BrailleBuffer.bufGet (BrailleBuffer.pixelBuffer b0) i = Some p ->
                     exists p',
                       BrailleBuffer.bufGet (BrailleBuffer.pixelBuffer b) i = Some p'
                       /\ Z.land p' p = p)).
  assert (Hstep : forall b x y col, P b -> P (BrailleBuffer.setPixel b x y col)).
  { intros b x y col (Hw & Hbg & Hch & Hgl & Hbits).
    pose proof (setPixel_rest b x y col) as (Rbg & Rch & Rgl).
    split; [apply setPixel_wf, Hw|].
    split; [congruence|]. split; [congruence|]. split; [congruence|].
    intros i p Hp. destruct (Hbits i p Hp) as (p1 & Hp1 & Hl1).
    destruct (setPixel_keeps_bits b x y col i p1 Hw Hp1) as (p2 & Hp2 & Hl2).
    exists p2. split; [exact Hp2|].
    rewrite <- Hl1 at 1. rewrite Z.land_assoc, Hl2. exact Hl1. }
  assert (H0 : P b0).
  { split; [exact Hwf|]. split; [reflexivity|]. split; [reflexivity|].
    split; [reflexivity|].
    intros i p Hp. exists p. split; [exact Hp | apply Z.land_diag]. }
  destruct (polygon_keeps earcut bresenham P Hstep c rings color H0)
    as ((Hw & Hbg & Hch & Hgl & Hbits) & Ewidth & Eheight).
  exact (conj Ewidth (conj Eheight (conj Hw (conj Hbg (conj Hch (conj Hgl Hbits)))))).
Qed.

Lemma polygon_only_sets_pixels_witness :
  let earcut := fun (vertices holes : list Z) => Some [0; 1; 2] in
  let bresenham := fun (x0 y0 x1 y1 : option Z) =>
                     match x0, y0 with
                     | Some x, Some y => [Canvas.mkPoint x y]
                     | _, _ => []
                     end in
  let c := Canvas.new 8 8 in
  let outer := [Canvas.mkPoint 0 0; Canvas.mkPoint 6 0; Canvas.mkPoint 0 6] in
  BrailleBuffer.wf (Canvas.buffer c)
  /\ fst (Canvas.polygon earcut bresenham c [outer] 34) = true
  /\ BrailleBuffer.wf
       (Canvas.buffer (snd (Canvas.polygon earcut bresenham c [outer] 34))).
Proof.
  intros earcut bresenham c outer.
  assert (Hwf : BrailleBuffer.wf (Canvas.buffer c)).
  { apply new_wf; [lia | reflexivity | lia | reflexivity]. }
  split; [exact Hwf|]. split; [reflexivity|].
  exact (proj1 (proj2 (proj2
           (polygon_only_sets_pixels earcut bresenham c [outer] 34 Hwf)))).
Defined.

(** ** LabelBuffer: the zone an accepted label closes *)

(** Once a label is accepted at cell [(X, Y)] with margin [m] and text
    width [w], every later call (until [clear]) for a text of width [w']
    anchored at a cell [(X', Y')] with [X - m - w' <= X' <= X + m + w] and
    [Y - m/2 <= Y' <= Y + m/2] is refused and changes nothing, whatever its
    own margin. *)
Theorem label_exclusion_zone
        (Feature : Type) (stringWidth : string -> Z)
        (l later : LabelBuffer.t Feature)
        (text text' : string) (x y x' y' : Q) (f f' : Feature)
        (margin margin' : option Q) :
  let X := inject_Z (Qfloor (x / 2)) in
  let Y := inject_Z (Qfloor (y / 4)) in
  let X' := inject_Z (Qfloor (x' / 2)) in
  let Y' := inject_Z (Qfloor (y' / 4)) in
  let m := LabelBuffer.marginOr l margin in
  let w := inject_Z (stringWidth text) in
  let w' := inject_Z (stringWidth text') in
  let r := LabelBuffer.writeIfPossible stringWidth l text x y f margin in
  fst r = true ->
  (forall item, item ∈ LabelBuffer.tree (snd r) -> item ∈ LabelBuffer.tree later) ->
  (X - m - w' <= X')%Q -> (X' <= X + m + w)%Q ->
  (Y - m / 2 <= Y')%Q -> (Y' <= Y + m / 2)%Q ->
  LabelBuffer.writeIfPossible stringWidth later text' x' y' f' margin' = (false, later).
Proof.
  intros X Y X' Y' m w w' r Hok Hlater Hx1 Hx2 Hy1 Hy2.
  pose (rect := LabelBuffer.mkItem (X - m) (Y - m / 2) (X + m + w) (Y + m / 2) (Some f)).
  assert (Hin : rect ∈ LabelBuffer.tree (snd r)).
  { subst r. rewrite writeIfPossible_cases in Hok |- *.
    destruct (LabelBuffer.collides _ _); [discriminate Hok|].
    cbn. apply elem_of_app. right. apply list_elem_of_singleton. reflexivity. }
  rewrite writeIfPossible_cases.
  rewrite (collides_item Feature _ _ rect (Hlater _ Hin)); [reflexivity|].
  unfold LabelBuffer.intersects, LabelBuffer._calculateArea, LabelBuffer.project.
  cbn [LabelBuffer.minX LabelBuffer.minY LabelBuffer.maxX LabelBuffer.maxY
       fst snd default from_option rect].
  fold X' Y' w'.
  rewrite !andb_true_iff, !Qle_bool_iff.
  set (half := (m / 2)%Q) in *. set (none := (0 / 2)%Q).
  assert (Hnone : (none == 0)%Q) by reflexivity.
  clearbody X Y X' Y' w w' half none.
  repeat split; lra.
Qed.

Lemma label_exclusion_zone_witness :
  let width := fun s : string => Z.of_nat (String.length s) in
  let l0 := @LabelBuffer.new unit in
  let l1 := snd (LabelBuffer.writeIfPossible width l0 "Paris" 10 10 tt (Some 5%Q)) in
  fst (LabelBuffer.writeIfPossible width l0 "Paris" 10 10 tt (Some 5%Q)) = true
  /\ (5 - 5 - 5 <= 5)%Q /\ (5 <= 5 + 5 + 5)%Q
  /\ (2 - 5 / 2 <= 2)%Q /\ (2 <= 2 + 5 / 2)%Q
  /\ LabelBuffer.writeIfPossible width l1 "Paris" 10 10 tt None = (false, l1).
Proof.
  intros width l0 l1.
  assert (Hok : fst (LabelBuffer.writeIfPossible width l0 "Paris" 10 10 tt (Some 5%Q))
                = true) by reflexivity.
  assert (H1 : (5 - 5 - 5 <= 5)%Q) by (vm_compute; discriminate).
  assert (H2 : (5 <= 5 + 5 + 5)%Q) by (vm_compute; discriminate).
  assert (H3 : (2 - 5 / 2 <= 2)%Q) by (vm_compute; discriminate).
  assert (H4 : (2 <= 2 + 5 / 2)%Q) by (vm_compute; discriminate).
  split; [exact Hok|]. split; [exact H1|]. split; [exact H2|].
  split; [exact H3|]. split; [exact H4|].
  exact (label_exclusion_zone unit width l0 l1 "Paris" "Paris" 10 10 10 10 tt tt
           (Some 5%Q) None Hok (fun _ H => H) H1 H2 H3 H4).
Defined.

(** ** Styler: the leaf filters and the style lookup *)

Section LeafFacts.

Import Styler.

Lemma find_strictEq (v : value) (vs : list value) :
  find (fun value => strictEq v value) vs = if bool_decide (v ∈ vs) then Some v else None.
Proof.
  induction vs as [|a vs IH]; [reflexivity|].
  cbn [find]. unfold strictEq at 1.
  destruct (bool_decide (v = a)) eqn:E.
  - apply bool_decide_eq_true in E. subst a.
    rewrite bool_decide_eq_true_2 by (apply list_elem_of_here). reflexivity.
  - apply bool_decide_eq_false in E. rewrite IH.
    destruct (bool_decide (v ∈ vs)) eqn:E'.
    + apply bool_decide_eq_true in E'.
      rewrite bool_decide_eq_true_2 by (apply list_elem_of_further, E'). reflexivity.
    + apply bool_decide_eq_false in E'.
      rewrite bool_decide_eq_false_2; [reflexivity|].
      intros Hin. apply elem_of_cons in Hin. destruct Hin; contradiction || congruence.
Qed.

End LeafFacts.

(** An ["in"] filter accepts a feature exactly when the property is one of
    the listed values and is truthy: a property equal to a listed 0, empty
    string, [false] or [null] is not accepted.  ["!in"] is the exact
    complement. *)
Theorem in_filter_semantics
        (lessThan : Styler.value -> Styler.value -> option bool)
        (key : string) (vs : list Styler.value) (feature : Styler.Feature) :
  Styler._compileFilter lessThan (Styler.In key vs) feature
  = bool_decide (Styler.prop feature key ∈ vs) && Styler.truthy (Styler.prop feature key)
  /\ Styler._compileFilter lessThan (Styler.NotIn key vs) feature
     = negb (Styler._compileFilter lessThan (Styler.In key vs) feature).
Proof.
  cbn [Styler._compileFilter]. rewrite find_strictEq.
  split; [|reflexivity].
  destruct (bool_decide _); reflexivity.
Qed.

(** An ["any"] filter is the disjunction of its sub-filters; with no
    sub-filters it rejects every feature. *)
Theorem any_filter_semantics
        (lessThan : Styler.value -> Styler.value -> option bool)
        (subs : list Styler.filter) (feature : Styler.Feature) :
  Styler._compileFilter lessThan (Styler.Any subs) feature
  = existsb (fun sub => Styler._compileFilter lessThan sub feature) subs
  /\ Styler._compileFilter lessThan (Styler.Any []) feature = false.
Proof.
  split; [|reflexivity].
  cbn [Styler._compileFilter]. rewrite found_existsb. apply existsb_mapped.
Qed.



(** [getStyleFor] answers with the first style, in the order of the list
    kept for the source layer, whose filter accepts the feature: every style
    before it rejects the feature.  It answers [false] when the layer has no
    list (and is not an inherited property name) or when every style of the
    list rejects. *)
Theorem getStyleFor_first_match
        (lessThan : Styler.value -> Styler.value -> option bool)
        (s : Styler.t) (layer : string) (feature : Styler.Feature) :
  (layer ∉ Styler.prototypeKeys ->
   Styler.styleByLayer s !! layer = None ->
   Styler.getStyleFor lessThan s layer feature = None)
  /\ (forall styles,
        Styler.styleByLayer s !! layer = Some styles ->
        match Styler.getStyleFor lessThan s layer feature with
        | Some style =>
            Styler.appliesTo lessThan style feature = true
            /\ exists before after,
                 styles = before ++ style :: after
                 /\ Forall (fun e => Styler.appliesTo lessThan e feature = false) before
        | None => Forall (fun e => Styler.appliesTo lessThan e feature = false) styles
        end).
Proof.
  unfold Styler.getStyleFor. split; [intros _ ->; reflexivity|].
  intros styles ->.
  induction styles as [|e styles IH]; [constructor|].
  cbn [find]. destruct (Styler.appliesTo lessThan e feature) eqn:E.
  - split; [exact E|]. exists [], styles. split; [reflexivity | constructor].
  - destruct (find _ styles) as [style|].
    + destruct IH as (Hacc & before & after & -> & Hbefore).
      split; [exact Hacc|]. exists (e :: before), after.
      split; [reflexivity | constructor; assumption].
    + constructor; assumption.
Qed.

Lemma getStyleFor_first_match_witness :
  ("water"%string ∉ Styler.prototypeKeys)
  /\ Styler.styleByLayer roadStyler !! "water"%string = None
  /\ Styler.getStyleFor numLess roadStyler "water" (Tile.withType roadPlain) = None
  /\ exists style,
       Styler.getStyleFor numLess roadStyler "road" (Tile.withType roadPlain) = Some style
       /\ Styler.appliesTo numLess style (Tile.withType roadPlain) = true.
Proof.
  assert (Hnone : Styler.styleByLayer roadStyler !! "water"%string = None) by reflexivity.
  assert (Hkey : ("water"%string ∉ Styler.prototypeKeys)).
  { intros Hin.
    repeat (apply elem_of_cons in Hin; destruct Hin as [Hin|Hin]; [discriminate Hin|]).
    apply elem_of_nil in Hin. exact Hin. }
  split; [exact Hkey|]. split; [exact Hnone|].
  split; [exact (proj1 (getStyleFor_first_match numLess roadStyler "water"
                          (Tile.withType roadPlain)) Hkey Hnone)|].
  destruct (Styler.styleByLayer roadStyler !! "road"%string) as [styles|] eqn:Hsome;
    [|vm_compute in Hsome; discriminate Hsome].
  pose proof (proj2 (getStyleFor_first_match numLess roadStyler "road"
                       (Tile.withType roadPlain)) styles Hsome) as H.
  destruct (Styler.getStyleFor numLess roadStyler "road" (Tile.withType roadPlain))
    as [style|] eqn:E; [|vm_compute in E; discriminate E].
  exists style. split; [reflexivity | exact (proj1 H)].
Defined.

(** ** Tile: gzip detection, bounding boxes, records *)

(** [_isGzipped] holds exactly of the buffers that start with the two bytes
    [0x1f 0x8b]; shorter buffers, the empty one included, are not gzipped. *)
Theorem isGzipped_magic (buffer : list Z) :
  Tile._isGzipped buffer = true <-> exists rest, buffer = 0x1f :: 0x8b :: rest.
Proof.
  unfold Tile._isGzipped, Tile.indexOf.
  destruct buffer as [|a [|b rest]].
  - cbn. split; [discriminate | intros [rest H]; discriminate H].
  - cbn. rewrite andb_false_r. cbn.
    split; [discriminate | intros [rest H]; discriminate H].
  - cbn [take Tile.indexOfFrom Tile.startsWith]. rewrite andb_true_r.
    destruct (Z.eqb_spec 31 a) as [<-|Ha]; destruct (Z.eqb_spec 139 b) as [<-|Hb];
      cbn [andb].
    + split; [intros _; exists rest; reflexivity | reflexivity].
    + rewrite andb_false_r. cbn.
      split; [discriminate | intros [r H]; congruence].
    + rewrite andb_false_r. cbn.
      split; [discriminate | intros [r H]; congruence].
    + rewrite andb_false_r. cbn.
      split; [discriminate | intros [r H]; congruence].
Qed.

Section BoundsFacts.

Import Tile.

Variable A : Type.
Variable f : A -> Z.

Lemma fold_lower_some pts m :
  exists m', fold_left (fun acc p => lower acc (f p)) pts (Some m) = Some m'
             /\ m' <= m /\ Forall (fun p => m' <= f p) pts
             /\ (m' = m \/ exists p, p ∈ pts /\ f p = m').
Proof.
  revert m. induction pts as [|p pts IH]; intros m.
  - exists m. cbn. split; [reflexivity|]. split; [lia|]. split; [constructor | left; reflexivity].
  - cbn [fold_left lower].
    destruct (Z.ltb_spec (f p) m) as [Hlt|Hge].
    + destruct (IH (f p)) as (m' & E & Hle & Hall & Hatt).
      exists m'. split; [exact E|]. split; [lia|].
      split; [constructor; [lia | exact Hall]|].
      right. destruct Hatt as [->|(q & Hq & Eq)].
      * exists p. split; [apply list_elem_of_here | reflexivity].
      * exists q. split; [apply list_elem_of_further, Hq | exact Eq].
    + destruct (IH m) as (m' & E & Hle & Hall & Hatt).
      exists m'. split; [exact E|]. split; [lia|].
      split; [constructor; [lia | exact Hall]|].
      destruct Hatt as [->|(q & Hq & Eq)]; [left; reflexivity|].
      right. exists q. split; [apply list_elem_of_further, Hq | exact Eq].
Qed.

Lemma fold_upper_some pts m :
  exists m', fold_left (fun acc p => upper acc (f p)) pts (Some m) = Some m'
             /\ m <= m' /\ Forall (fun p => f p <= m') pts
             /\ (m' = m \/ exists p, p ∈ pts /\ f p = m').
Proof.
  revert m. induction pts as [|p pts IH]; intros m.
  - exists m. cbn. split; [reflexivity|]. split; [lia|]. split; [constructor | left; reflexivity].
  - cbn [fold_left upper].
    destruct (Z.ltb_spec m (f p)) as [Hlt|Hge].
    + destruct (IH (f p)) as (m' & E & Hle & Hall & Hatt).
      exists m'. split; [exact E|]. split; [lia|].
      split; [constructor; [lia | exact Hall]|].
      right. destruct Hatt as [->|(q & Hq & Eq)].
      * exists p. split; [apply list_elem_of_here | reflexivity].
      * exists q. split; [apply list_elem_of_further, Hq | exact Eq].
    + destruct (IH m) as (m' & E & Hle & Hall & Hatt).
      exists m'. split; [exact E|]. split; [lia|].
      split; [constructor; [lia | exact Hall]|].
      destruct Hatt as [->|(q & Hq & Eq)]; [left; reflexivity|].
      right. exists q. split; [apply list_elem_of_further, Hq | exact Eq].
Qed.

(** Over a non-empty list the folds give the least and the greatest value. *)
Lemma fold_lower_least p pts :
  exists m, fold_left (fun acc p => lower acc (f p)) (p :: pts) None = Some m
            /\ Forall (fun q => m <= f q) (p :: pts)
            /\ exists q, q ∈ p :: pts /\ f q = m.
Proof.
  cbn [fold_left lower].
  destruct (fold_lower_some pts (f p)) as (m & E & Hle & Hall & Hatt).
  exists m. split; [exact E|]. split; [constructor; assumption|].
  destruct Hatt as [->|(q & Hq & Eq)].
  - exists p. split; [apply list_elem_of_here | reflexivity].
  - exists q. split; [apply list_elem_of_further, Hq | exact Eq].
Qed.

Lemma fold_upper_greatest p pts :
  exists m, fold_left (fun acc p => upper acc (f p)) (p :: pts) None = Some m
            /\ Forall (fun q => f q <= m) (p :: pts)
            /\ exists q, q ∈ p :: pts /\ f q = m.
Proof.
  cbn [fold_left upper].
  destruct (fold_upper_some pts (f p)) as (m & E & Hle & Hall & Hatt).
  exists m. split; [exact E|]. split; [constructor; assumption|].
  destruct Hatt as [->|(q & Hq & Eq)].
  - exists p. split; [apply list_elem_of_here | reflexivity].
  - exists q. split; [apply list_elem_of_further, Hq | exact Eq].
Qed.

End BoundsFacts.

(** [_addBoundaries] computes the bounding box of a line, and for a fill
    record ([deep]) that of its first ring only: every point of it lies
    inside the box and each of the four bounds is attained by a point.
    Of an empty line the bounds stay at their initial infinities.  The
    other fields of the record are kept. *)
Theorem addBoundaries_box (deep : bool) (data : Tile.TileFeature)
        (pts : list Canvas.Point) :
  (deep = false /\ Tile.nodePoints data = Tile.Line pts)
  \/ (deep = true /\ exists holes, Tile.nodePoints data = Tile.Rings (pts :: holes)) ->
  exists n,
    Tile._addBoundaries deep data = Some n
    /\ (Tile.layer n, Tile.style n, Tile.label n, Tile.sort n, Tile.nodePoints n,
        Tile.color n)
       = (Tile.layer data, Tile.style data, Tile.label data, Tile.sort data,
          Tile.nodePoints data, Tile.color data)
    /\ (pts = [] ->
        Tile.minX n = None /\ Tile.maxX n = None
        /\ Tile.minY n = None /\ Tile.maxY n = None)
    /\ (pts <> [] ->
        exists x0 x1 y0 y1,
          Tile.minX n = Some x0 /\ Tile.maxX n = Some x1
          /\ Tile.minY n = Some y0 /\ Tile.maxY n = Some y1
          /\ Forall (fun p => x0 <= Canvas.px p <= x1 /\ y0 <= Canvas.py p <= y1) pts
          /\ (exists p, p ∈ pts /\ Canvas.px p = x0)
          /\ (exists p, p ∈ pts /\ Canvas.px p = x1)
          /\ (exists p, p ∈ pts /\ Canvas.py p = y0)
          /\ (exists p, p ∈ pts /\ Canvas.py p = y1)).
Proof.
  intros Hpts.
  assert (E : match Tile.nodePoints data with
              | Tile.Rings rings => if deep then head rings else None
              | Tile.Line line => if deep then None else Some line
              end = Some pts).
  { destruct Hpts as [[-> ->] | [-> [holes ->]]]; reflexivity. }
  unfold Tile._addBoundaries. rewrite E. cbn [mbind option_bind].
  eexists. split; [reflexivity|]. cbn.
  split; [reflexivity|]. split.
  - intros ->. repeat split.
  - intros Hne. destruct pts as [|p rest]; [contradiction|].
    destruct (fold_lower_least _ Canvas.px p rest) as (x0 & Ex0 & Hx0 & Ax0).
    destruct (fold_upper_greatest _ Canvas.px p rest) as (x1 & Ex1 & Hx1 & Ax1).
    destruct (fold_lower_least _ Canvas.py p rest) as (y0 & Ey0 & Hy0 & Ay0).
    destruct (fold_upper_greatest _ Canvas.py p rest) as (y1 & Ey1 & Hy1 & Ay1).
    exists x0, x1, y0, y1.
    split; [exact Ex0|]. split; [exact Ex1|]. split; [exact Ey0|]. split; [exact Ey1|].
    split.
    { rewrite Forall_forall in *. intros q Hq.
      specialize (Hx0 q Hq). specialize (Hx1 q Hq).
      specialize (Hy0 q Hq). specialize (Hy1 q Hq). cbn beta in *. lia. }
    repeat split; assumption.
Qed.

Lemma addBoundaries_box_witness :
  let style := {| Styler.id := "water"; Styler.layerType := Some "fill"%string;
                  Styler.layerFilter := Styler.Other; Styler.paint := None |} in
  let ring := [Canvas.mkPoint 4 9; Canvas.mkPoint 12 2; Canvas.mkPoint 7 30] in
  let hole := [Canvas.mkPoint 100 100] in
  let data := {| Tile.layer := "water"; Tile.style := style;
                 Tile.label := Styler.VUndefined; Tile.sort := Styler.VUndefined;
                 Tile.nodePoints := Tile.Rings [ring; hole]; Tile.color := 4;
                 Tile.minX := Some 0; Tile.maxX := Some 0;
                 Tile.minY := Some 0; Tile.maxY := Some 0 |} in
  (true = true /\ exists holes, Tile.nodePoints data = Tile.Rings (ring :: holes))
  /\ ring <> []
  /\ exists n, Tile._addBoundaries true data = Some n
               /\ (Tile.minX n, Tile.maxX n, Tile.minY n, Tile.maxY n)
                  = (Some 4, Some 12, Some 2, Some 30).
Proof.
  intros style ring hole data.
  assert (Hshape : true = true
                   /\ exists holes, Tile.nodePoints data = Tile.Rings (ring :: holes)).
  { split; [reflexivity|]. exists [hole]. reflexivity. }
  assert (Hne : ring <> []) by discriminate.
  split; [exact Hshape|]. split; [exact Hne|].
  destruct (addBoundaries_box true data ring (or_intror Hshape)) as (n & En & _).
  exists n. split; [exact En|].
  vm_compute in En. injection En as <-. reflexivity.
Defined.

Section RecordFacts.

Import Styler Tile.

Lemma addBoundaries_fields deep data n :
  _addBoundaries deep data = Some n ->
  layer n = layer data /\ style n = style data /\ label n = label data
  /\ nodePoints n = nodePoints data /\ color n = color data.
Proof.
  unfold _addBoundaries. intros H.
  destruct (match nodePoints data with
            | Rings rings => if deep then head rings else None
            | Line line => if deep then None else Some line
            end) as [pts|]; [|discriminate].
  cbn in H. injection H as <-. repeat split.
Qed.

End RecordFacts.

(** The records of one feature.  Without a styler the loop body throws; a
    feature that no style accepts (in a layer that is not named like an
    inherited property) yields no record.  A feature styled by a
    fill layer yields one record holding all its rings; any other feature
    yields one record per line of its geometry, in order.  Every record
    names the layer and the accepting style, and carries a label only when
    that style is a symbol layer. *)
Theorem featureNodes_records
        (lessThan : Styler.value -> Styler.value -> option bool)
        (config : Config.t) (colorCode : option string -> option Z)
        (name : string) (raw : Tile.RawFeature) :
  Tile.featureNodes lessThan config colorCode None name raw = None
  /\ (forall s,
        name ∉ Styler.prototypeKeys ->
        Styler.getStyleFor lessThan s name (Tile.withType raw) = None ->
        Tile.featureNodes lessThan config colorCode (Some s) name raw = Some [])
  /\ (forall s st nodes,
        Styler.getStyleFor lessThan s name (Tile.withType raw) = Some st ->
        Tile.featureNodes lessThan config colorCode (Some s) name raw = Some nodes ->
        map Tile.nodePoints nodes
        = (if bool_decide (Styler.layerType st = Some "fill"%string)
           then [Tile.Rings (Tile.rawGeometry raw)]
           else map Tile.Line (Tile.rawGeometry raw))
        /\ Forall (fun n =>
                     Tile.layer n = name /\ Tile.style n = st
                     /\ (Styler.layerType st <> Some "symbol"%string ->
                         Tile.label n = Styler.VUndefined)) nodes).
Proof.
  split; [reflexivity|]. split.
  - intros s _ Hnone. unfold Tile.featureNodes. rewrite Hnone. reflexivity.
  - intros s st nodes Hst Hnodes.
    unfold Tile.featureNodes in Hnodes. rewrite Hst in Hnodes.
    destruct (Styler.paint st) as [paint|]; [|discriminate].
    cbn [mbind option_bind] in Hnodes.
    destruct (match Tile.paintOr _ _ with
              | Some (Styler.PStr s) => Some (Some s)
              | Some (Styler.PStops stops) => Some <$> (snd <$> head stops)
              | None => Some None
              end) as [color|]; [|discriminate].
    cbn [mbind option_bind] in Hnodes.
    destruct (colorCode color) as [code|]; [|discriminate].
    cbn [mbind option_bind] in Hnodes.
    assert (Hlabel : Styler.layerType st <> Some "symbol"%string ->
                     Tile.labelOf config st (Tile.withType raw) = Styler.VUndefined).
    { intros Hns. unfold Tile.labelOf.
      rewrite bool_decide_eq_false_2 by exact Hns. reflexivity. }
    destruct (bool_decide (Styler.layerType st = Some "fill"%string)).
    + destruct (Tile._addBoundaries true _) as [n|] eqn:Eb; [|discriminate].
      cbn in Hnodes. injection Hnodes as <-.
      apply addBoundaries_fields in Eb. cbn in Eb.
      destruct Eb as (El & Es & Ela & Ep & _).
      split; [cbn; rewrite Ep; reflexivity|].
      constructor; [|constructor].
      split; [exact El|]. split; [exact Es|].
      intros Hns. rewrite Ela. apply Hlabel, Hns.
    + apply mapM_Some in Hnodes.
      induction Hnodes as [|pts n geometries nodes Eb _ IH].
      * split; [reflexivity | constructor].
      * apply addBoundaries_fields in Eb. cbn in Eb.
        destruct Eb as (El & Es & Ela & Ep & _).
        destruct IH as [IHp IHf].
        split; [cbn; rewrite Ep, IHp; reflexivity|].
        constructor; [|exact IHf].
        split; [exact El|]. split; [exact Es|].
        intros Hns. rewrite Ela. apply Hlabel, Hns.
Qed.

Lemma featureNodes_records_witness :
  exists st nodes,
    Styler.getStyleFor numLess roadStyler "road" (Tile.withType roadPlain) = Some st
    /\ Tile.featureNodes numLess Config.default (fun _ => Some 15)
                         (Some roadStyler) "road" roadPlain = Some nodes
    /\ map Tile.nodePoints nodes
       = [Tile.Line [Canvas.mkPoint 0 0; Canvas.mkPoint 10 4]]
    /\ ("water"%string ∉ Styler.prototypeKeys)
    /\ Styler.getStyleFor numLess roadStyler "water" (Tile.withType roadPlain) = None
    /\ Tile.featureNodes numLess Config.default (fun _ => Some 15)
                         (Some roadStyler) "water" roadPlain = Some [].
Proof.
  destruct (Styler.getStyleFor numLess roadStyler "road" (Tile.withType roadPlain))
    as [st|] eqn:Est; [|vm_compute in Est; discriminate Est].
  destruct (Tile.featureNodes numLess Config.default (fun _ => Some 15)
                              (Some roadStyler) "road" roadPlain)
    as [nodes|] eqn:En; [|vm_compute in En; discriminate En].
  assert (Hnone : Styler.getStyleFor numLess roadStyler "water" (Tile.withType roadPlain)
                  = None) by reflexivity.
  exists st, nodes.
  destruct (featureNodes_records numLess Config.default (fun _ => Some 15)
              "road" roadPlain) as (_ & _ & Hrec).
  destruct (Hrec roadStyler st nodes Est En) as [Hpts _].
  destruct (featureNodes_records numLess Config.default (fun _ => Some 15)
              "water" roadPlain) as (_ & Hskip & _).
  split; [reflexivity|]. split; [reflexivity|].
  split.
  { rewrite Hpts. vm_compute in Est. injection Est as <-. reflexivity. }
  assert (Hkey : ("water"%string ∉ Styler.prototypeKeys)).
  { intros Hin.
    repeat (apply elem_of_cons in Hin; destruct Hin as [Hin|Hin]; [discriminate Hin|]).
    apply elem_of_nil in Hin. exact Hin. }
  split; [exact Hkey|].
  split; [exact Hnone | exact (Hskip roadStyler Hkey Hnone)].
Defined.

Section ReduceFacts.

Import Tile.

Lemma reducePoints_facts factor last line :
  let r := reducePoints factor last line in
  (forall l p, last = Some l -> head r = Some p -> p <> l)
  /\ (forall i p q, r !! i = Some p -> r !! S i = Some q -> p <> q)
  /\ Forall (fun p => exists q, q ∈ line
                      /\ p = Canvas.mkPoint (Canvas.px q / factor) (Canvas.py q / factor)) r
  /\ (length r <= length line)%nat.
Proof.
  revert last. induction line as [|point rest IH]; intros last; cbn zeta.
  - cbn. split; [intros ? ? _ H; discriminate H|].
    split; [intros ? ? ? H; discriminate H|]. split; [constructor | lia].
  - set (p0 := Canvas.mkPoint (Canvas.px point / factor) (Canvas.py point / factor)).
    assert (Hpush : forall prev,
               (forall l, prev = Some l -> p0 <> l) ->
               let r := p0 :: reducePoints factor (Some p0) rest in
               (forall l p, prev = Some l -> head r = Some p -> p <> l)
               /\ (forall i p q, r !! i = Some p -> r !! S i = Some q -> p <> q)
               /\ Forall (fun p => exists q, q ∈ point :: rest
                                   /\ p = Canvas.mkPoint (Canvas.px q / factor)
                                                         (Canvas.py q / factor)) r
               /\ (length r <= length (point :: rest))%nat).
    { intros prev Hprev r. subst r.
      destruct (IH (Some p0)) as (Hhead & Hadj & Hall & Hlen). cbn zeta in *.
      split.
      { intros l p Hl Hp. cbn in Hp. injection Hp as <-. apply Hprev, Hl. }
      split.
      { intros [|i] p q Hp Hq; cbn in Hp, Hq.
        - injection Hp as <-. intros E. symmetry in E. revert E.
          apply (Hhead p0 q eq_refl).
          destruct (reducePoints factor (Some p0) rest); [discriminate Hq | exact Hq].
        - exact (Hadj i p q Hp Hq). }
      split.
      { constructor.
        - exists point. split; [apply list_elem_of_here | reflexivity].
        - eapply Forall_impl; [exact Hall|].
          intros p (q & Hq & Ep). exists q.
          split; [apply list_elem_of_further, Hq | exact Ep]. }
      cbn. lia. }
    cbn [reducePoints]. fold p0.
    destruct last as [l|].
    + destruct ((Canvas.px l =? Canvas.px p0) && (Canvas.py l =? Canvas.py p0)) eqn:E.
      * destruct (IH (Some l)) as (Hhead & Hadj & Hall & Hlen). cbn zeta in *.
        split; [exact Hhead|]. split; [exact Hadj|].
        split; [|cbn; lia].
        eapply Forall_impl; [exact Hall|].
        intros p (q & Hq & Ep). exists q.
        split; [apply list_elem_of_further, Hq | exact Ep].
      * apply Hpush. intros l' Hl' Heq. injection Hl' as <-. subst l.
        rewrite !Z.eqb_refl in E. discriminate E.
    + apply Hpush. intros l' Hl'. discriminate Hl'.
Qed.

End ReduceFacts.

(** [_reduceGeometry] with a non-zero factor keeps one reduced line per line
    of the geometry; each is made of points of the line divided by the factor
    and rounded down, starts with the first of them, is no longer than the
    line, and never holds the same point twice in a row. *)
Theorem reduceGeometry_spec (geometries : list (list Canvas.Point)) (factor : Z)
        (k : nat) (line : list Canvas.Point) :
  factor <> 0 ->
  geometries !! k = Some line ->
  length (Tile._reduceGeometry geometries factor) = length geometries
  /\ exists r,
       Tile._reduceGeometry geometries factor !! k = Some r
       /\ (forall i p q, r !! i = Some p -> r !! S i = Some q -> p <> q)
       /\ Forall (fun p => exists q, q ∈ line
                           /\ p = Canvas.mkPoint (Canvas.px q / factor)
                                                 (Canvas.py q / factor)) r
       /\ head r = (fun q => Canvas.mkPoint (Canvas.px q / factor) (Canvas.py q / factor))
                     <$> head line
       /\ (length r <= length line)%nat.
Proof.
  intros _ Hline. unfold Tile._reduceGeometry.
  split; [apply length_map|].
  exists (Tile.reducePoints factor None line).
  split.
  { change (map ?f ?l) with (fmap f l). rewrite list_lookup_fmap, Hline. reflexivity. }
  destruct (reducePoints_facts factor None line) as (_ & Hadj & Hall & Hlen).
  split; [exact Hadj|]. split; [exact Hall|]. split; [|exact Hlen].
  destruct line; reflexivity.
Qed.

Lemma reduceGeometry_spec_witness :
  let line := [Canvas.mkPoint 0 0; Canvas.mkPoint 3 5; Canvas.mkPoint 9 7;
               Canvas.mkPoint 15 15; Canvas.mkPoint 16 1] in
  8 <> 0 /\ [line] !! 0%nat = Some line
  /\ Tile._reduceGeometry [line] 8
     = [[Canvas.mkPoint 0 0; Canvas.mkPoint 1 0; Canvas.mkPoint 1 1; Canvas.mkPoint 2 0]].
Proof.
  intros line.
  assert (H8 : 8 <> 0) by lia.
  assert (Hl : [line] !! 0%nat = Some line) by reflexivity.
  split; [exact H8|]. split; [exact Hl|].
  destruct (reduceGeometry_spec [line] 8 0 line H8 Hl) as (_ & r & Er & _).
  reflexivity.
Defined.

(** ** TileSource: the cache over sequences of calls *)

Section SequenceFacts.

Import TileSource.

Variable Tile : Type.
Variable decode : Z -> Z -> Z -> Tile.

Lemma getTile_keeps (s : t Tile) z x y z' x' y' tile :
  cache s !! tileName z x y = Some tile ->
  cache (getTile decode s z' x' y') !! tileName z x y = Some tile.
Proof.
  intros Hin. unfold getTile, getTileStart.
  destruct (sourceMode s) as [m|]; [|exact Hin].
  destruct (cache s !! tileName z' x' y') as [hit|] eqn:Ehit; [exact Hin|].
  assert (Hne : tileName z' x' y' <> tileName z x y) by congruence.
  destruct m; cbn [_createTile cache];
    rewrite ?lookup_insert_ne by exact Hne; rewrite evict_keeps; exact Hin.
Qed.




End SequenceFacts.

(** No decoded tile ever leaves the cache: a tile cached under its name is
    still cached, unchanged, after any further sequence of [getTile] calls,
    so it is never fetched or decoded again. *)
Theorem cache_never_forgets (Tile : Type) (decode : Z -> Z -> Z -> Tile)
        (s : TileSource.t Tile) (calls : list (Z * Z * Z)) (z x y : Z) (tile : Tile) :
  TileSource.cache s !! TileSource.tileName z x y = Some tile ->
  TileSource.cache (TileSource.getTiles decode s calls) !! TileSource.tileName z x y
  = Some tile
  /\ TileSource.getTileStart (TileSource.getTiles decode s calls) z x y
     = match TileSource.sourceMode (TileSource.getTiles decode s calls) with
       | Some _ => TileSource.Hit Tile tile
       | None => TileSource.Throws Tile
       end.
Proof.
  intros Hin.
  assert (Hkeep : TileSource.cache (TileSource.getTiles decode s calls)
                    !! TileSource.tileName z x y = Some tile).
  { unfold TileSource.getTiles. revert s Hin.
    induction calls as [|[[z' x'] y'] calls IH]; intros s Hin; [exact Hin|].
    cbn [fold_left]. apply IH, getTile_keeps, Hin. }
  split; [exact Hkeep|].
  unfold TileSource.getTileStart. rewrite Hkeep.
  destruct (TileSource.sourceMode _); reflexivity.
Qed.

Lemma cache_never_forgets_witness :
  let s := TileSource.getTile (fun _ _ _ => tt) (TileSource.init (Some TileSource.HTTP))
             5 0 0 in
  let calls := map (fun x => (5, x, 0)) (seqZ 1 20) in
  TileSource.cache s !! TileSource.tileName 5 0 0 = Some tt
  /\ TileSource.getTileStart (TileSource.getTiles (fun _ _ _ => tt) s calls) 5 0 0
     = TileSource.Hit unit tt.
Proof.
  intros s calls.
  assert (Hin : TileSource.cache s !! TileSource.tileName 5 0 0 = Some tt) by reflexivity.
  split; [exact Hin|].
  destruct (cache_never_forgets unit (fun _ _ _ => tt) s calls 5 0 0 tt Hin) as [_ H].
  rewrite H. reflexivity.
Defined.




(** ** TileSource: the cache keys *)

Section NameFacts.

Import TileSource.

Lemma numToString_inj a b : Js.numToString a = Js.numToString b -> a = b.
Proof.
  unfold Js.numToString. intros H.
  assert (Hnil : forall z, Z.to_int z <> Decimal.Pos Decimal.Nil
                           /\ Z.to_int z <> Decimal.Neg Decimal.Nil).
  { intros [|p|p]; cbn; split; try discriminate;
      intros E; injection E as E; exact (DecimalPos.Unsigned.to_uint_nonnil p E). }
  apply (f_equal NilZero.int_of_string) in H.
  rewrite !NilZero.isi in H by apply Hnil.
  injection H as H.
  rewrite <- (DecimalZ.of_to a), <- (DecimalZ.of_to b), H. reflexivity.
Qed.

Lemma hasDash_nonneg z : 0 <= z -> hasDash (Js.numToString z) = false.
Proof.
  intros Hz. rewrite <- (Z2Nat.id z) by exact Hz. apply hasDash_index.
Qed.

(** Two strings that agree after a first separator agree before it. *)
Lemma split_at_dash a a' r r' :
  hasDash a = false -> hasDash a' = false ->
  (a ++ "-" ++ r = a' ++ "-" ++ r')%string -> a = a' /\ r = r'.
Proof.
  assert (Hnil : forall s, ("" ++ s)%string = s) by reflexivity.
  assert (Hcons : forall c a s, (String c a ++ s)%string = String c (a ++ s)%string)
    by reflexivity.
  revert a'. induction a as [|c a IH]; intros [|c' a'] Ha Ha' E;
    rewrite ?Hnil, ?Hcons, ?Hnil in E; simpl in Ha, Ha'.
  - injection E as ->. split; reflexivity.
  - injection E as <- _. discriminate Ha'.
  - injection E as -> _. discriminate Ha.
  - injection E as <- E.
    apply orb_false_iff in Ha. apply orb_false_iff in Ha'.
    destruct (IH a' (proj2 Ha) (proj2 Ha') E) as [-> ->]. split; reflexivity.
Qed.

End NameFacts.

(** Tiles with non-negative zoom and column never share a cache key: the
    name ["z-x-y"] determines [z], [x] and [y]. *)
Theorem tileName_injective (z x y z' x' y' : Z) :
  0 <= z -> 0 <= x -> 0 <= z' -> 0 <= x' ->
  TileSource.tileName z x y = TileSource.tileName z' x' y' ->
  z = z' /\ x = x' /\ y = y'.
Proof.
  intros Hz Hx Hz' Hx' E. unfold TileSource.tileName in E. cbn [Js.join] in E.
  destruct (split_at_dash _ _ _ _ (hasDash_nonneg z Hz) (hasDash_nonneg z' Hz') E)
    as [Ez E1].
  destruct (split_at_dash _ _ _ _ (hasDash_nonneg x Hx) (hasDash_nonneg x' Hx') E1)
    as [Ex Ey].
  split; [apply numToString_inj, Ez|].
  split; [apply numToString_inj, Ex | apply numToString_inj, Ey].
Qed.

Lemma tileName_injective_witness :
  0 <= 11 /\ 0 <= 2 /\ 0 <= 1 /\ 0 <= 12
  /\ TileSource.tileName 11 2 3 = "11-2-3"%string
  /\ TileSource.tileName 1 12 3 = "1-12-3"%string
  /\ (TileSource.tileName 11 2 3 = TileSource.tileName 1 12 3 -> False).
Proof.
  split; [lia|]. split; [lia|]. split; [lia|]. split; [lia|].
  split; [reflexivity|]. split; [reflexivity|].
  intros E.
  destruct (tileName_injective 11 2 3 1 12 3 ltac:(lia) ltac:(lia) ltac:(lia) ltac:(lia) E)
    as [Hz _].
  discriminate Hz.
Defined.

(** ** BrailleBuffer: the color codes of a frame *)

Section CompressFacts.

Import BrailleBuffer.

Variable stringWidth : string -> Z.
Variable config : Config.t.

(** The code in effect after a run of codes. *)
Lemma compress_app cur l1 l2 :
  compress cur (l1 ++ l2)
  = compress cur l1 ++ compress (fold_left (fun _ code => Some code) l1 cur) l2.
Proof.
  revert cur. induction l1 as [|code l1 IH]; intros cur; [reflexivity|].
  cbn [app compress fold_left].
  destruct (bool_decide (cur = Some code)) eqn:E.
  - apply bool_decide_eq_true in E. rewrite IH, E. reflexivity.
  - rewrite IH. reflexivity.
Qed.

Lemma cells_sgr b y xs st :
  let codes := map (fun x => cellColor b (frameIdx b y x)) xs in
  let st' := fold_left (fun st x => cell stringWidth config b y x st) xs st in
  cellSgr (output st') = cellSgr (output st) ++ compress (currentColor st) codes
  /\ currentColor st' = fold_left (fun _ code => Some code) codes (currentColor st).
Proof.
  revert st. induction xs as [|x xs IH]; intros st; cbn zeta.
  - cbn. rewrite app_nil_r. split; reflexivity.
  - cbn [fold_left map compress].
    destruct (cell_sgr stringWidth config b y x st) as [Eout Ecur].
    destruct (IH (cell stringWidth config b y x st)) as [Eout' Ecur'].
    cbn zeta in Eout', Ecur'. rewrite Eout', Ecur', Eout, Ecur.
    split; [|reflexivity].
    rewrite <- app_assoc. f_equal.
    destruct (bool_decide (currentColor st = Some _)) eqn:E; [|reflexivity].
    apply bool_decide_eq_true in E. rewrite E. reflexivity.
Qed.

Lemma rows_sgr b ys st :
  let codes :=
    map (cellColor b)
        (flat_map (fun y => map (fun x => frameIdx b y x)
                                (seqZ 0 (iterations (width b) 2))) ys) in
  let st' := fold_left (row stringWidth config b) ys st in
  cellSgr (output st') = cellSgr (output st) ++ compress (currentColor st) codes
  /\ currentColor st' = fold_left (fun _ code => Some code) codes (currentColor st).
Proof.
  revert st. induction ys as [|y ys IH]; intros st; cbn zeta.
  - cbn. rewrite app_nil_r. split; reflexivity.
  - cbn [fold_left flat_map]. rewrite map_app, map_map, compress_app, fold_left_app.
    destruct (cells_sgr b y (seqZ 0 (iterations (width b) 2))
                {| output := output st; currentColor := currentColor st; skip := 0 |})
      as [Eout Ecur].
    cbn zeta in Eout, Ecur. cbn [output currentColor] in Eout, Ecur.
    destruct (IH (row stringWidth config b st y)) as [Eout' Ecur'].
    cbn zeta in Eout', Ecur'. rewrite Eout', Ecur'.
    unfold row. rewrite Eout, Ecur, <- app_assoc. split; reflexivity.
Qed.

(** The SGR sequences a frame pushes for its cells are the color codes of
    the cells in loop order, with every repeat of the code in effect dropped. *)
Lemma frameItems_sgr b :
  cellSgr (frameItems stringWidth config b)
  = compress None (map (cellColor b) (frameCells b)).
Proof.
  unfold frameItems. rewrite cellSgr_snoc. cbn [cellSgrOf option_list].
  rewrite app_nil_r.
  destruct (rows_sgr b (seqZ 0 (iterations (height b) 4))
              {| output := []; currentColor := None; skip := 0 |}) as [Eout _].
  cbn zeta in Eout. rewrite Eout. reflexivity.
Qed.

(** On a well-formed buffer, [frame] visits the cell of every in-range
    pixel. *)
Lemma project_visited b x y :
  wf b -> 0 <= x < width b -> 0 <= y < height b ->
  Some (_project b x y) ∈ frameCells b.
Proof.
  intros Hwf Hx Hy.
  destruct (wf_grid b Hwf) as (Ec & Er & _ & _ & _ & _).
  pose proof Hwf as [[Hw Hw2] [Hh Hh4] _ _ _].
  pose proof (Z.div_mod (width b) 2 ltac:(lia)) as Ew.
  pose proof (Z.div_mod (height b) 4 ltac:(lia)) as Eh.
  rewrite <- (frameIdx_project b x y Hwf Hx Hy).
  apply list_elem_of_In. unfold frameCells. apply in_flat_map.
  exists (y / 4). split.
  - apply list_elem_of_In, elem_of_seqZ. rewrite Er.
    split; [apply Z.div_pos; lia|]. cbn. apply Z.div_lt_upper_bound; lia.
  - apply in_map_iff. exists (x / 2). split; [reflexivity|].
    apply list_elem_of_In, elem_of_seqZ. rewrite Ec.
    split; [apply Z.div_pos; lia|]. cbn. apply Z.div_lt_upper_bound; lia.
Qed.

End CompressFacts.

(** C10.  [frame()] joins the strings of the pushed items; the SGR
    sequences among them are the color codes of the cells in loop order
    with repeats dropped, each computed by the loop body as the cell's color
    code.  For a cell whose foreground byte is 0 that code is the one of a
    cell without foreground: the background-only form or the reset; for a
    cell whose background byte is 0 it is the code of a cell without
    background of its own.  [setPixel(x, y, 0)] leaves such a foreground byte
    in a cell that [frame] visits. *)
Theorem zero_byte_is_no_color (stringWidth : string -> Z) (config : Config.t)
        (b : BrailleBuffer.t) :
  let out := BrailleBuffer.frameItems stringWidth config b in
  BrailleBuffer.frame stringWidth config b
  = Js.join EmptyString (map (BrailleBuffer.itemString config) out)
  /\ BrailleBuffer.cellSgr out
     = BrailleBuffer.compress None
         (map (BrailleBuffer.cellColor b) (BrailleBuffer.frameCells b))
  /\ (forall y x st,
        let code := BrailleBuffer.cellColor b (BrailleBuffer.frameIdx b y x) in
        let st' := BrailleBuffer.cell stringWidth config b y x st in
        BrailleBuffer.currentColor st' = Some code
        /\ BrailleBuffer.cellSgr (BrailleBuffer.output st')
           = BrailleBuffer.cellSgr (BrailleBuffer.output st)
             ++ (if bool_decide (BrailleBuffer.currentColor st = Some code)
                 then [] else [code]))
  /\ (forall idx,
        BrailleBuffer.readAt (BrailleBuffer.foregroundBuffer b) idx = Some 0 ->
        BrailleBuffer.cellColor b idx
        = BrailleBuffer._termColor b None
            (BrailleBuffer.orNull
               (BrailleBuffer.readAt (BrailleBuffer.backgroundBuffer b) idx))
        /\ (BrailleBuffer.cellColor b idx = BrailleBuffer.termReset
            \/ exists bg, bg <> 0 /\
                 BrailleBuffer.cellColor b idx
                 = (BrailleBuffer.CSI ++ "39;48;5;" ++ Js.numToString bg ++ "m")%string))
  /\ (forall idx,
        BrailleBuffer.readAt (BrailleBuffer.backgroundBuffer b) idx = Some 0 ->
        BrailleBuffer.cellColor b idx
        = BrailleBuffer._termColor b
            (BrailleBuffer.orNull
               (BrailleBuffer.readAt (BrailleBuffer.foregroundBuffer b) idx))
            None)
  /\ (forall x y,
        BrailleBuffer.wf b ->
        0 <= x < BrailleBuffer.width b -> 0 <= y < BrailleBuffer.height b ->
        let b' := BrailleBuffer.setPixel b x y 0 in
        let idx := Some (BrailleBuffer._project b x y) in
        idx ∈ BrailleBuffer.frameCells b'
        /\ BrailleBuffer.frameIdx b' (y / 4) (x / 2) = idx
        /\ BrailleBuffer.readAt (BrailleBuffer.foregroundBuffer b') idx = Some 0
        /\ BrailleBuffer.cellColor b' idx
           = BrailleBuffer._termColor b' None
               (BrailleBuffer.orNull
                  (BrailleBuffer.readAt (BrailleBuffer.backgroundBuffer b') idx))
        /\ BrailleBuffer.cellSgr (BrailleBuffer.frameItems stringWidth config b')
           = BrailleBuffer.compress None
               (map (BrailleBuffer.cellColor b') (BrailleBuffer.frameCells b'))).
Proof.
  intros out.
  split; [reflexivity|].
  split; [apply frameItems_sgr|].
  split.
  { intros y x st code st'.
    destruct (cell_sgr stringWidth config b y x st) as [Eout Ecur].
    split; [exact Ecur | exact Eout]. }
  split.
  { intros idx Hfg. unfold BrailleBuffer.cellColor. rewrite Hfg.
    cbn [BrailleBuffer.orNull Z.eqb].
    split; [reflexivity|].
    unfold BrailleBuffer._termColor. cbn [BrailleBuffer.truthy andb].
    set (B := Js.or _ _).
    destruct (Z.eqb_spec B 0) as [_|Hne]; cbn [negb].
    - left. reflexivity.
    - right. eexists. split; [exact Hne | reflexivity]. }
  split.
  { intros idx Hbg. unfold BrailleBuffer.cellColor. rewrite Hbg. reflexivity. }
  intros x y Hwf Hx Hy b' idx.
  pose proof (setPixel_wf b x y 0 Hwf) as Hwf'. fold b' in Hwf'.
  destruct (setPixel_dims b x y 0) as [Ew Eh]. fold b' in Ew, Eh.
  assert (Eproj : BrailleBuffer._project b' x y = BrailleBuffer._project b x y).
  { unfold BrailleBuffer._project. rewrite Ew. reflexivity. }
  assert (Hfg : BrailleBuffer.readAt (BrailleBuffer.foregroundBuffer b') idx = Some 0).
  { subst idx. cbn.
    destruct (project_in_range b x y Hwf Hx Hy) as [_ Hi].
    pose proof Hwf as [_ _ _ [Lf _] _].
    subst b'. rewrite setPixel_in_range by assumption. cbn.
    rewrite bufGet_bufSet_eq by lia. reflexivity. }
  split.
  { subst idx. rewrite <- Eproj.
    apply project_visited; [exact Hwf' | rewrite Ew; exact Hx | rewrite Eh; exact Hy]. }
  split.
  { subst idx. rewrite <- Eproj.
    apply frameIdx_project; [exact Hwf' | rewrite Ew; exact Hx | rewrite Eh; exact Hy]. }
  split; [exact Hfg|].
  split; [|apply frameItems_sgr].
  unfold BrailleBuffer.cellColor. rewrite Hfg. reflexivity.
Qed.

Lemma zero_byte_is_no_color_witness :
  let b := BrailleBuffer.setGlobalBackground (BrailleBuffer.new 4 4) 7 in
  let b' := BrailleBuffer.setPixel b 3 2 0 in
  BrailleBuffer.readAt (BrailleBuffer.foregroundBuffer b) (Some 0) = Some 0
  /\ BrailleBuffer.readAt (BrailleBuffer.backgroundBuffer b) (Some 1) = Some 0
  /\ BrailleBuffer.wf b /\ 0 <= 3 < 4 /\ 0 <= 2 < 4
  /\ BrailleBuffer.cellColor b (Some 0)
     = (BrailleBuffer.CSI ++ "39;48;5;7m")%string
  /\ BrailleBuffer.cellColor b (Some 1)
     = (BrailleBuffer.CSI ++ "39;48;5;7m")%string
  /\ (Some 1 ∈ BrailleBuffer.frameCells b')
  /\ BrailleBuffer.cellSgr (BrailleBuffer.frameItems (fun _ => 1) Config.default b')
     = [(BrailleBuffer.CSI ++ "39;48;5;7m")%string].
Proof.
  intros b b'.
  assert (Hwf : BrailleBuffer.wf b).
  { destruct (new_wf 4 4) as [H1 H2 H3 H4 H5];
      [lia | reflexivity | lia | reflexivity |].
    constructor; assumption. }
  assert (Hfg : BrailleBuffer.readAt (BrailleBuffer.foregroundBuffer b) (Some 0) = Some 0)
    by reflexivity.
  assert (Hbg : BrailleBuffer.readAt (BrailleBuffer.backgroundBuffer b) (Some 1) = Some 0)
    by reflexivity.
  assert (Hx : 0 <= 3 < BrailleBuffer.width b) by (cbn; lia).
  assert (Hy : 0 <= 2 < BrailleBuffer.height b) by (cbn; lia).
  destruct (zero_byte_is_no_color (fun _ => 1) Config.default b)
    as (_ & _ & _ & Hnofg & Hnobg & Hset).
  destruct (Hnofg (Some 0) Hfg) as [Ecode _].
  pose proof (Hnobg (Some 1) Hbg) as Ecode'.
  destruct (Hset 3 2 Hwf Hx Hy) as (Hvisit & _ & _ & _ & Esgr).
  split; [exact Hfg|]. split; [exact Hbg|]. split; [exact Hwf|].
  split; [lia|]. split; [lia|].
  split; [rewrite Ecode; reflexivity|].
  split; [rewrite Ecode'; reflexivity|].
  split; [exact Hvisit|].
  etransitivity; [exact Esgr | reflexivity].
Defined.

(** C9, evaluated on the code.  The record built for a road feature that
    has neither [localrank] nor [scalerank] carries the sort key
    [undefined], where the key is specified as 0 and the record type declares
    a number; and the record of a feature whose [localrank] is 0 carries its
    [scalerank] 5, where the specified key is the [localrank] 0. *)
Theorem sort_key_without_default :
  (exists n,
     Tile.featureNodes numLess Config.default (fun _ => Some 15)
                       (Some roadStyler) "road" roadPlain = Some [n]
     /\ Tile.sort n = Styler.VUndefined
     /\ Tile.sortKey_spec (Tile.withType roadPlain) = Styler.VNum 0)
  /\ (exists n,
        Tile.featureNodes numLess Config.default (fun _ => Some 15)
                          (Some roadStyler) "road" roadRanked = Some [n]
        /\ Tile.sort n = Styler.VNum 5
        /\ Tile.sortKey_spec (Tile.withType roadRanked) = Styler.VNum 0).
Proof.
  split.
  - destruct (Tile.featureNodes numLess Config.default (fun _ => Some 15)
                                (Some roadStyler) "road" roadPlain)
      as [[|n [|n' rest]]|] eqn:E;
      try (vm_compute in E; discriminate E).
    exists n. split; [reflexivity|].
    vm_compute in E. injection E as <-. split; reflexivity.
  - destruct (Tile.featureNodes numLess Config.default (fun _ => Some 15)
                                (Some roadStyler) "road" roadRanked)
      as [[|n [|n' rest]]|] eqn:E;
      try (vm_compute in E; discriminate E).
    exists n. split; [reflexivity|].
    vm_compute in E. injection E as <-. split; reflexivity.
Qed.

(** ** BrailleBuffer: override characters and the layout of a frame *)

(** [setChar(char, x, y, c)] with a palette index [c]: outside the buffer
    nothing changes; inside, the character is stored for the pixel's cell
    and [fg[i]] becomes [c], while the other characters and foregrounds, all
    pixels and all backgrounds stay as they were. *)
Theorem setChar_spec (b : BrailleBuffer.t) (char : string) (x y c : Z) :
  let b' := BrailleBuffer.setChar b char x y c in
  let i := BrailleBuffer._project b x y in
  (~ (0 <= x < BrailleBuffer.width b /\ 0 <= y < BrailleBuffer.height b) -> b' = b)
  /\ (BrailleBuffer.wf b -> 0 <= c < 256 ->
      0 <= x < BrailleBuffer.width b -> 0 <= y < BrailleBuffer.height b ->
      BrailleBuffer.charBuffer b' !! i = Some char
      /\ BrailleBuffer.bufGet (BrailleBuffer.foregroundBuffer b') i = Some c
      /\ (forall j, j <> i ->
            BrailleBuffer.charBuffer b' !! j = BrailleBuffer.charBuffer b !! j
            /\ BrailleBuffer.bufGet (BrailleBuffer.foregroundBuffer b') j
               = BrailleBuffer.bufGet (BrailleBuffer.foregroundBuffer b) j)
      /\ BrailleBuffer.pixelBuffer b' = BrailleBuffer.pixelBuffer b
      /\ BrailleBuffer.backgroundBuffer b' = BrailleBuffer.backgroundBuffer b
      /\ BrailleBuffer.globalBackground b' = BrailleBuffer.globalBackground b).
Proof.
  intros b' i. subst b'. unfold BrailleBuffer.setChar. split.
  - intros Hout. rewrite inRange_false by assumption. reflexivity.
  - intros Hwf Hc Hx Hy.
    rewrite (proj2 (inRange_true b x y)) by lia. cbn. fold i.
    destruct (project_in_range b x y Hwf Hx Hy) as [_ Hi]. fold i in Hi.
    destruct Hwf as [_ _ _ [Lf _] _].
    split; [apply lookup_insert_eq|].
    split.
    { rewrite bufGet_bufSet_eq by lia.
      unfold Js.toUint8. rewrite Z.mod_small by lia. reflexivity. }
    split.
    { intros j Hj. split; [apply lookup_insert_ne; congruence|].
      apply bufGet_bufSet_ne, Hj. }
    split; [reflexivity|]. split; reflexivity.
Qed.

Lemma setChar_spec_witness :
  let b := BrailleBuffer.new 4 8 in
  BrailleBuffer.wf b /\ 0 <= 7 < 256 /\ 0 <= 2 < 4 /\ 0 <= 5 < 8
  /\ ~ (0 <= 4 < 4 /\ 0 <= 0 < 8)
  /\ BrailleBuffer.setChar b "A" 4 0 7 = b
  /\ BrailleBuffer.charBuffer (BrailleBuffer.setChar b "A" 2 5 7) !! 3 = Some "A"%string.
Proof.
  intros b.
  assert (Hwf : BrailleBuffer.wf b).
  { apply new_wf; [lia | reflexivity | lia | reflexivity]. }
  assert (Hout : ~ (0 <= 4 < 4 /\ 0 <= 0 < 8)) by lia.
  split; [exact Hwf|]. split; [lia|]. split; [lia|]. split; [lia|].
  split; [exact Hout|]. split.
  - exact (proj1 (setChar_spec b "A" 4 0 7) Hout).
  - destruct (proj2 (setChar_spec b "A" 2 5 7) Hwf) as [Hch _];
      [lia | cbn; lia | cbn; lia | exact Hch].
Defined.

Section LayoutFacts.

Import BrailleBuffer.

Variable stringWidth : string -> Z.
Variable config : Config.t.

Lemma layout_snoc out i :
  layout (out ++ [i])
  = layout out ++ match i with Color _ | Final => [] | _ => [i] end.
Proof. unfold layout. rewrite omap_app. destruct i; reflexivity. Qed.

(** With narrow override characters and in braille mode, a cell pushes the
    row delimiter if it opens a row other than the first, then what it
    shows; nothing is skipped. *)
Lemma cell_layout b y x i st :
  Config.useBraille config = true ->
  (forall j char, charBuffer b !! j = Some char -> stringWidth char = 1) ->
  frameIdx b y x = Some i -> skip st = 0 -> 2 * x < width b ->
  layout (output (cell stringWidth config b y x st))
  = layout (output st)
    ++ (if negb (i =? 0) && (x =? 0) then [Delimiter] else [])
    ++ [cellShown b i]
  /\ skip (cell stringWidth config b y x st) = 0.
Proof.
  intros Hbraille Hnarrow Hidx Hskip Hx. unfold cell, cellShown.
  rewrite Hidx, Hskip. cbn [mbind option_bind readAt Z.eqb].
  assert (Edec : bool_decide (Some i = Some 0) = (i =? 0)).
  { destruct (Z.eqb_spec i 0) as [->|Hne].
    - apply bool_decide_eq_true_2. reflexivity.
    - apply bool_decide_eq_false_2. congruence. }
  rewrite Edec, Hbraille.
  set (out1 := if negb (i =? 0) && (x =? 0) then output st ++ [Delimiter] else output st).
  assert (E1 : layout out1
               = layout (output st)
                 ++ (if negb (i =? 0) && (x =? 0) then [Delimiter] else [])).
  { subst out1. destruct (_ && _); [apply layout_snoc | symmetry; apply app_nil_r]. }
  set (code := cellColor b (Some i)).
  destruct (bool_decide (currentColor st = Some code));
    (destruct (charBuffer b !! i) as [[|c rest]|] eqn:Hch;
     [ | rewrite (Hnarrow _ _ Hch);
         replace (2 * (0 + (1 - 1) + x) <? width b) with true
           by (symmetry; apply Z.ltb_lt; lia) | ];
     cbn [output skip]; rewrite ?layout_snoc, ?app_nil_r, E1, <- ?app_assoc;
     split; reflexivity).
Qed.

Lemma cells_layout b y w xs st :
  Config.useBraille config = true ->
  (forall j char, charBuffer b !! j = Some char -> stringWidth char = 1) ->
  (forall x, frameIdx b y x = Some (y * w + x)) ->
  Forall (fun x => 2 * x < width b) xs -> skip st = 0 ->
  let st' := fold_left (fun st x => cell stringWidth config b y x st) xs st in
  layout (output st')
  = layout (output st)
    ++ flat_map (fun x => (if negb (y * w + x =? 0) && (x =? 0) then [Delimiter] else [])
                          ++ [cellShown b (y * w + x)]) xs
  /\ skip st' = 0.
Proof.
  intros Hbraille Hnarrow Hidx Hxs. revert st.
  induction Hxs as [|x xs Hx _ IH]; intros st Hskip; cbn zeta.
  - cbn. rewrite app_nil_r. split; [reflexivity | exact Hskip].
  - cbn [fold_left flat_map].
    destruct (cell_layout b y x _ st Hbraille Hnarrow (Hidx x) Hskip Hx) as [Eout Es].
    destruct (IH _ Es) as [Eout' Es']. cbn zeta in Eout', Es'.
    split; [|exact Es'].
    rewrite Eout', Eout, <- !app_assoc. reflexivity.
Qed.

Lemma row_cells {A} (c : Z -> bool) (d : A) (g : Z -> A) (xs : list Z) :
  Forall (fun x => x <> 0) xs ->
  flat_map (fun x => (if c x && (x =? 0) then [d] else []) ++ [g x]) xs = map g xs.
Proof.
  induction 1 as [|x xs Hx _ IH]; [reflexivity|].
  cbn [flat_map map]. rewrite IH.
  destruct (Z.eqb_spec x 0) as [?|_]; [contradiction|].
  rewrite andb_false_r. reflexivity.
Qed.

Lemma row_layout b y w st :
  Config.useBraille config = true ->
  (forall j char, charBuffer b !! j = Some char -> stringWidth char = 1) ->
  (forall x, frameIdx b y x = Some (y * w + x)) ->
  iterations (width b) 2 = w -> 0 < w -> 2 * w <= width b -> 0 <= y ->
  layout (output (row stringWidth config b st y))
  = layout (output st)
    ++ (if y =? 0 then [] else [Delimiter])
    ++ map (fun x => cellShown b (y * w + x)) (seqZ 0 w).
Proof.
  intros Hbraille Hnarrow Hidx Ew Hw Hww Hy. unfold row. rewrite Ew.
  destruct (cells_layout b y w (seqZ 0 w)
              {| output := output st; currentColor := currentColor st; skip := 0 |}
              Hbraille Hnarrow Hidx) as [Eout _]; [|reflexivity|].
  { apply Forall_forall. intros x Hx. apply elem_of_seqZ in Hx. lia. }
  cbn zeta in Eout. rewrite Eout. cbn [output]. f_equal.
  rewrite (seqZ_cons 0 w) by lia. cbn [flat_map map].
  rewrite row_cells.
  2:{ apply Forall_forall. intros x Hx. apply elem_of_seqZ in Hx. lia. }
  rewrite Z.add_0_r. cbn [Z.eqb andb]. rewrite andb_true_r.
  assert (E : (y * w =? 0) = (y =? 0)).
  { destruct (Z.eqb_spec y 0) as [->|Hne]; [reflexivity|].
    apply Z.eqb_neq. nia. }
  rewrite E. destruct (y =? 0); reflexivity.
Qed.

Lemma rows_layout b w ys st :
  Config.useBraille config = true ->
  (forall j char, charBuffer b !! j = Some char -> stringWidth char = 1) ->
  (forall y x, frameIdx b y x = Some (y * w + x)) ->
  iterations (width b) 2 = w -> 0 < w -> 2 * w <= width b ->
  Forall (fun y => 0 <= y) ys ->
  layout (output (fold_left (row stringWidth config b) ys st))
  = layout (output st)
    ++ flat_map (fun y => (if y =? 0 then [] else [Delimiter])
                          ++ map (fun x => cellShown b (y * w + x)) (seqZ 0 w)) ys.
Proof.
  intros Hbraille Hnarrow Hidx Ew Hw Hww Hys. revert st.
  induction Hys as [|y ys Hy _ IH]; intros st.
  - cbn. rewrite app_nil_r. reflexivity.
  - cbn [fold_left flat_map]. rewrite IH.
    rewrite (row_layout b y w st Hbraille Hnarrow (Hidx y) Ew Hw Hww Hy).
    rewrite <- !app_assoc. reflexivity.
Qed.

End LayoutFacts.

(** The layout of a frame.  On a well-formed buffer with at least one
    column, in braille mode and with override characters of width 1 only,
    [frame()] pushes, apart from the SGR sequences, the rows of the buffer
    in order, each row being the delimiter (except before the first row)
    followed by one item per cell: the cell's override character if it
    has one, else its braille glyph. *)
Theorem frame_layout (stringWidth : string -> Z) (config : Config.t)
        (b : BrailleBuffer.t) :
  BrailleBuffer.wf b -> 0 < BrailleBuffer.width b ->
  Config.useBraille config = true ->
  (forall j char, BrailleBuffer.charBuffer b !! j = Some char -> stringWidth char = 1) ->
  let w := BrailleBuffer.width b / 2 in
  let h := BrailleBuffer.height b / 4 in
  BrailleBuffer.layout (BrailleBuffer.frameItems stringWidth config b)
  = flat_map (fun y => (if y =? 0 then [] else [BrailleBuffer.Delimiter])
                       ++ map (fun x => BrailleBuffer.cellShown b (y * w + x))
                              (seqZ 0 w))
             (seqZ 0 h).
Proof.
  intros Hwf Hpos Hbraille Hnarrow w h.
  destruct (wf_grid b Hwf) as (Ec & Er & Hc & Hr & _ & Hidx).
  pose proof Hwf as [[Hw Hw2] _ _ _ _].
  pose proof (Z.div_mod (BrailleBuffer.width b) 2 ltac:(lia)) as Ew.
  unfold BrailleBuffer.frameItems. rewrite layout_snoc, app_nil_r.
  rewrite (rows_layout stringWidth config b w); try assumption; try (subst w; lia).
  - rewrite Er. reflexivity.
  - apply Forall_forall. intros y Hy. apply elem_of_seqZ in Hy. lia.
Qed.

Lemma frame_layout_witness :
  let b := BrailleBuffer.setChar
             (BrailleBuffer.setPixel (BrailleBuffer.new 4 8) 0 0 9) "A" 2 5 7 in
  let width := fun _ : string => 1 in
  BrailleBuffer.wf b /\ 0 < BrailleBuffer.width b
  /\ Config.useBraille Config.default = true
  /\ (forall j char, BrailleBuffer.charBuffer b !! j = Some char -> width char = 1)
  /\ BrailleBuffer.layout (BrailleBuffer.frameItems width Config.default b)
     = [BrailleBuffer.Braille 0x2801; BrailleBuffer.Braille 0x2800;
        BrailleBuffer.Delimiter;
        BrailleBuffer.Braille 0x2800; BrailleBuffer.Char "A"].
Proof.
  intros b width.
  assert (Hwf : BrailleBuffer.wf b).
  { apply setChar_wf, setPixel_wf, new_wf; [lia | reflexivity | lia | reflexivity]. }
  assert (Hpos : 0 < BrailleBuffer.width b) by (cbn; lia).
  assert (Hnarrow : forall j char,
             BrailleBuffer.charBuffer b !! j = Some char -> width char = 1)
    by (intros; reflexivity).
  split; [exact Hwf|]. split; [exact Hpos|]. split; [reflexivity|].
  split; [exact Hnarrow|].
  rewrite (frame_layout width Config.default b Hwf Hpos eq_refl Hnarrow).
  reflexivity.
Defined.

(** ** Mapscii: the dimensions handed to the renderer *)

Section SizeFacts.



End SizeFacts.


